(** * mena-signal: ingestion, extraction and analysis pipeline

    A shallow embedding of [backend/app/services/ingestion.py] and
    [backend/app/services/analysis.py], together with the parts of the
    Python standard library they call ([str] methods, [re], [urlparse],
    [hashlib.sha256], [float], [int]).

    Python [str] values are modelled by [string]: the character with code
    [n] stands for the code point U+00[n], so the model covers exactly the
    strings whose code points lie below 256, and the character classes
    below are Python's on that range. *)

From Stdlib Require Import ZArith NArith List String Ascii Bool Lia.
From Stdlib Require Import Floats.SpecFloat DecimalString.
Import ListNotations.

Local Open Scope string_scope.

(* ===================================================================== *)
(** * Exceptions *)
(* ===================================================================== *)

(** A Python exception is kept as its class and its [str()] text. *)
Inductive exn : Type :=
| ValueError (msg : string)
| TypeError (msg : string)
| OverflowError (msg : string)
| OtherError (msg : string).

Definition exn_str (e : exn) : string :=
  match e with
  | ValueError m | TypeError m | OverflowError m | OtherError m => m
  end.

(** [result A]: a call either raises or returns. *)
Definition result (A : Type) : Type := (exn + A)%type.

Definition ok {A} (a : A) : result A := inr a.
Definition raise {A} (e : exn) : result A := inl e.

Definition bind {A B} (r : result A) (k : A -> result B) : result B :=
  match r with
  | inl e => inl e
  | inr a => k a
  end.

Notation "x <- r ;; k" := (bind r (fun x => k))
  (at level 61, r at next level, right associativity).

(* ===================================================================== *)
(** * Python [str] *)
(* ===================================================================== *)

Module PyStr.

Definition code (c : ascii) : N := N_of_ascii c.

Definition in_range (lo hi : N) (c : ascii) : bool :=
  (N.leb lo (code c) && N.leb (code c) hi)%bool.

(** [c.isupper()] for a cased character: A-Z, and U+00C0..U+00DE but the
    multiplication sign U+00D7. *)
Definition is_upper (c : ascii) : bool :=
  (in_range 65 90 c || (in_range 192 222 c && negb (N.eqb (code c) 215)))%bool.

(** [c.lower()]: every upper-case character below U+0100 maps to the
    character 32 places further. *)
Definition lower_char (c : ascii) : ascii :=
  if is_upper c then ascii_of_N (code c + 32) else c.

Fixpoint lower (s : string) : string :=
  match s with
  | EmptyString => EmptyString
  | String c s' => String (lower_char c) (lower s')
  end.

(** [c.isspace()], also the class [\s] of [re]. *)
Definition isspace (c : ascii) : bool :=
  (in_range 9 13 c || in_range 28 32 c
   || N.eqb (code c) 133 || N.eqb (code c) 160)%bool.

(** [c.isdecimal()], the class [\d] of [re]. *)
Definition isdigit (c : ascii) : bool := in_range 48 57 c.

(** The class [\w] of [re]: [c.isalnum()] or the underscore. *)
Definition isword (c : ascii) : bool :=
  (in_range 48 57 c || in_range 65 90 c || in_range 97 122 c
   || N.eqb (code c) 95
   || N.eqb (code c) 170 || N.eqb (code c) 178 || N.eqb (code c) 179
   || N.eqb (code c) 181 || N.eqb (code c) 185 || N.eqb (code c) 186
   || in_range 188 190 c
   || in_range 192 214 c || in_range 216 246 c || in_range 248 255 c)%bool.

(** [s.lstrip(...)], [s.rstrip(...)], [s.strip(...)] for a set of
    characters given as a predicate. *)
Fixpoint lstrip_by (p : ascii -> bool) (s : string) : string :=
  match s with
  | EmptyString => EmptyString
  | String c s' => if p c then lstrip_by p s' else s
  end.

Fixpoint rstrip_by (p : ascii -> bool) (s : string) : string :=
  match s with
  | EmptyString => EmptyString
  | String c s' =>
      match rstrip_by p s' with
      | EmptyString => if p c then EmptyString else String c EmptyString
      | r => String c r
      end
  end.

Definition strip_by (p : ascii -> bool) (s : string) : string :=
  lstrip_by p (rstrip_by p s).

(** [c in chars] for a character. *)
Fixpoint mem_char (chars : string) (c : ascii) : bool :=
  match chars with
  | EmptyString => false
  | String d chars' => (Ascii.eqb c d || mem_char chars' c)%bool
  end.

(** [s.strip()] *)
Definition strip (s : string) : string := strip_by isspace s.

(** [s.strip(chars)] *)
Definition strip_chars (chars s : string) : string :=
  strip_by (mem_char chars) s.

(** [s.startswith(p)] *)
Definition startswith (p s : string) : bool := prefix p s.

(** [sub in s] *)
Fixpoint contains (sub s : string) : bool :=
  if prefix sub s then true
  else match s with
       | EmptyString => false
       | String _ s' => contains sub s'
       end.

(** [s.find(sub)], with [None] for Python's -1. *)
Fixpoint find (sub s : string) : option nat :=
  if prefix sub s then Some 0
  else match s with
       | EmptyString => None
       | String _ s' => option_map S (find sub s')
       end.

(** [s[i:j]] for non-negative [i] and [j]; [s[i:]] and [s[:j]]. *)
Definition slice (s : string) (i j : nat) : string := substring i (j - i) s.
Definition slice_from (s : string) (i : nat) : string :=
  substring i (String.length s - i) s.
Definition slice_to (s : string) (j : nat) : string := substring 0 j s.

(** [s.split()]: the maximal runs of non-whitespace characters. [cur] is
    the word being read, in reverse. *)
Fixpoint rev_string (acc s : string) : string :=
  match s with
  | EmptyString => acc
  | String c s' => rev_string (String c acc) s'
  end.

Definition flush_word (cur : string) (ws : list string) : list string :=
  match cur with
  | EmptyString => ws
  | _ => rev_string EmptyString cur :: ws
  end.

Fixpoint split_go (cur : string) (s : string) : list string :=
  match s with
  | EmptyString => flush_word cur []
  | String c s' =>
      if isspace c then flush_word cur (split_go EmptyString s')
      else split_go (String c cur) s'
  end.

Definition split (s : string) : list string := split_go EmptyString s.

(** [sep.join(l)] *)
Fixpoint join (sep : string) (l : list string) : string :=
  match l with
  | [] => EmptyString
  | [w] => w
  | w :: l' => w ++ sep ++ join sep l'
  end.

(** [s.replace(c, "")] for a set of characters. *)
Fixpoint remove_chars (p : ascii -> bool) (s : string) : string :=
  match s with
  | EmptyString => EmptyString
  | String c s' => if p c then remove_chars p s' else String c (remove_chars p s')
  end.

(** [s.encode()]: UTF-8, one byte below U+0080 and two bytes from there
    to U+00FF. *)
Fixpoint encode_utf8 (s : string) : list Z :=
  match s with
  | EmptyString => []
  | String c s' =>
      let n := Z.of_N (code c) in
      if Z.ltb n 128 then n :: encode_utf8 s'
      else Z.lor 192 (Z.shiftr n 6) :: Z.lor 128 (Z.land n 63) :: encode_utf8 s'
  end.

End PyStr.

(* ===================================================================== *)
(** * Python [re]: the fragment used by the extraction patterns *)
(* ===================================================================== *)

Module Re.

Import PyStr.

(** Every repetition in the source patterns is over a single character
    class, so [Star], [Plus] and [PlusLazy] take a class. All patterns
    have at most one capturing group. *)
Inductive regex : Type :=
| Lit (s : string)                  (* literal text *)
| Cls (p : ascii -> bool)           (* one character of a class *)
| Seq (a b : regex)                 (* ab *)
| Alt (a b : regex)                 (* a|b *)
| Opt (a : regex)                   (* a? *)
| Star (p : ascii -> bool)          (* [p]* *)
| Plus (p : ascii -> bool)          (* [p]+ *)
| PlusLazy (p : ascii -> bool)      (* [p]+? *)
| Group (a : regex)                 (* (a) *)
| Bol                               (* ^ *)
| WordB.                            (* \b *)

(** A position in the subject: the character to its left, its index and
    the text to its right. *)
Record cursor : Type := mkCursor {
  prev : option ascii;
  pos : nat;
  rest : string
}.

Definition start_cursor (s : string) : cursor := mkCursor None 0 s.

Fixpoint advance (n : nat) (c : cursor) : cursor :=
  match n with
  | O => c
  | S n' =>
      match rest c with
      | EmptyString => c
      | String a r => advance n' (mkCursor (Some a) (S (pos c)) r)
      end
  end.

(** Length of the longest run of class characters at the front. *)
Fixpoint run_len (p : ascii -> bool) (s : string) : nat :=
  match s with
  | EmptyString => 0
  | String a s' => if p a then S (run_len p s') else 0
  end.

Definition word_before (c : cursor) : bool :=
  match prev c with Some a => isword a | None => false end.

Definition word_after (c : cursor) : bool :=
  match rest c with String a _ => isword a | EmptyString => false end.

(** A way to match: where it ends, and the text of group 1 if set. *)
Definition outcome : Type := (cursor * option string)%type.

(** [exec r c g] lists every way [r] matches at [c], in the order in
    which the backtracking matcher of [re] tries them: the left
    alternative first, greedy repetitions longest first, lazy ones
    shortest first. *)
Fixpoint exec (r : regex) (c : cursor) (g : option string) : list outcome :=
  match r with
  | Lit s => if prefix s (rest c) then [(advance (String.length s) c, g)] else []
  | Cls p =>
      match rest c with
      | String a _ => if p a then [(advance 1 c, g)] else []
      | EmptyString => []
      end
  | Seq a b => flat_map (fun o : outcome => exec b (fst o) (snd o)) (exec a c g)
  | Alt a b => exec a c g ++ exec b c g
  | Opt a => exec a c g ++ [(c, g)]
  | Star p =>
      map (fun k => (advance k c, g)) (rev (seq 0 (S (run_len p (rest c)))))
  | Plus p =>
      map (fun k => (advance k c, g)) (rev (seq 1 (run_len p (rest c))))
  | PlusLazy p =>
      map (fun k => (advance k c, g)) (seq 1 (run_len p (rest c)))
  | Group a =>
      map (fun o : outcome =>
             (fst o, Some (substring 0 (pos (fst o) - pos c) (rest c))))
          (exec a c g)
  | Bol => if Nat.eqb (pos c) 0 then [(c, g)] else []
  | WordB => if xorb (word_before c) (word_after c) then [(c, g)] else []
  end.

(** A match object: [m.start()], [m.end()] and [m.group(1)]. *)
Record match_obj : Type := mkMatch {
  m_start : nat;
  m_end : nat;
  m_group1 : option string
}.

Definition match_at (r : regex) (c : cursor) : option match_obj :=
  match exec r c None with
  | [] => None
  | o :: _ => Some (mkMatch (pos c) (pos (fst o)) (snd o))
  end.

(** [re.match(r, s)] *)
Definition re_match (r : regex) (s : string) : option match_obj :=
  match_at r (start_cursor s).

(** [re.search(r, s)]: the match at the leftmost position that has one.
    [n] bounds the number of positions still to try. *)
Fixpoint search_from (r : regex) (n : nat) (c : cursor) : option match_obj :=
  match match_at r c with
  | Some m => Some m
  | None =>
      match n with
      | O => None
      | S n' =>
          match rest c with
          | EmptyString => None
          | String _ _ => search_from r n' (advance 1 c)
          end
      end
  end.

Definition re_search (r : regex) (s : string) : option match_obj :=
  search_from r (String.length s) (start_cursor s).

(** [m.group(1)] of a pattern whose group always takes part. *)
Definition group1 (m : match_obj) : string :=
  match m_group1 m with Some g => g | None => EmptyString end.

(** [re.sub(r'<[^>]+>', '', s)]: every leftmost, longest tag is removed.
    A tag is [<], then one or more characters other than [>], then [>].
    [n] bounds the number of steps. *)
Fixpoint find_gt (s : string) : option nat :=
  match s with
  | EmptyString => None
  | String a s' => if Ascii.eqb a ">" then Some 0 else option_map S (find_gt s')
  end.

Fixpoint strip_tags_go (n : nat) (s : string) : string :=
  match n with
  | O => s
  | S n' =>
      match s with
      | EmptyString => EmptyString
      | String a s' =>
          if Ascii.eqb a "<" then
            match find_gt s' with
            | Some (S k) => strip_tags_go n' (substring (S (S k)) (String.length s') s')
            | _ => String a (strip_tags_go n' s')
            end
          else String a (strip_tags_go n' s')
      end
  end.

Definition strip_tags (s : string) : string := strip_tags_go (String.length s) s.

End Re.

(* ===================================================================== *)
(** * Python [float] *)
(* ===================================================================== *)

Module PyFloat.

(** A [float] is an IEEE 754 binary64 number. *)
Definition float : Type := spec_float.
Definition prec : Z := 53.
Definition emax : Z := 1024.

(** [x * y] *)
Definition mul (x y : float) : float := SFmul prec emax x y.

(** [float(n)] for an integer [n]. *)
Definition of_Z (n : Z) : float := binary_normalize prec emax n 0 false.

(** The quotient of two positive integers, rounded to nearest even. *)
Definition of_ratio (n d : positive) : float :=
  let '(m, e, l) := SFdiv_core_binary prec emax (Zpos n) 0 (Zpos d) 0 in
  binary_round_aux prec emax false m e l.

(** Value of a string of decimal digits. *)
Fixpoint digits_value (acc : N) (s : string) : N :=
  match s with
  | EmptyString => acc
  | String c s' => digits_value (10 * acc + (PyStr.code c - 48)) s'
  end.

(** [float(s)] for [s] of the shape [\d+(\.\d+)?]: the decimal number
    [s] denotes, correctly rounded. *)
Definition of_decimal (s : string) : float :=
  let '(ip, fp) :=
    match PyStr.find "." s with
    | Some i => (PyStr.slice_to s i, PyStr.slice_from s (S i))
    | None => (s, EmptyString)
    end in
  match digits_value 0 (ip ++ fp) with
  | N0 => S754_zero false
  | Npos n => of_ratio n (Z.to_pos (10 ^ Z.of_nat (String.length fp)))
  end.

End PyFloat.

(* ===================================================================== *)
(** * [hashlib.sha256] (FIPS 180-4) *)
(* ===================================================================== *)

Module Sha256.

Local Open Scope Z_scope.

(** Words are 32-bit integers kept in [Z]. *)
Definition wrap (x : Z) : Z := x mod 4294967296.
Definition add32 (a b : Z) : Z := wrap (a + b).
Definition rotr (n x : Z) : Z := Z.lor (Z.shiftr x n) (wrap (Z.shiftl x (32 - n))).
Definition not32 (x : Z) : Z := 4294967295 - x.

Definition Ch (x y z : Z) : Z := Z.lxor (Z.land x y) (Z.land (not32 x) z).
Definition Maj (x y z : Z) : Z :=
  Z.lxor (Z.lxor (Z.land x y) (Z.land x z)) (Z.land y z).
Definition Sigma0 (x : Z) : Z := Z.lxor (Z.lxor (rotr 2 x) (rotr 13 x)) (rotr 22 x).
Definition Sigma1 (x : Z) : Z := Z.lxor (Z.lxor (rotr 6 x) (rotr 11 x)) (rotr 25 x).
Definition sigma0 (x : Z) : Z := Z.lxor (Z.lxor (rotr 7 x) (rotr 18 x)) (Z.shiftr x 3).
Definition sigma1 (x : Z) : Z := Z.lxor (Z.lxor (rotr 17 x) (rotr 19 x)) (Z.shiftr x 10).

(** The constants of the standard are fractional parts of roots of the
    first primes: 32 bits of the cube root for the 64 round constants,
    32 bits of the square root for the initial hash value. *)
Definition first_primes : list Z :=
  [ 2; 3; 5; 7; 11; 13; 17; 19; 23; 29; 31; 37; 41; 43; 47; 53;
    59; 61; 67; 71; 73; 79; 83; 89; 97; 101; 103; 107; 109; 113; 127; 131;
    137; 139; 149; 151; 157; 163; 167; 173; 179; 181; 191; 193; 197; 199;
    211; 223; 227; 229; 233; 239; 241; 251; 257; 263; 269; 271; 277; 281;
    283; 293; 307; 311 ].

(** The integer cube root of [n], bit by bit from bit [i - 1] down. *)
Fixpoint cube_root (i : nat) (n r : Z) : Z :=
  match i with
  | O => r
  | S i' =>
      let c := r + 2 ^ Z.of_nat i' in
      cube_root i' n (if c * c * c <=? n then c else r)
  end.

Definition frac_cube_root (p : Z) : Z := wrap (cube_root 36 (p * 2 ^ 96) 0).
Definition frac_square_root (p : Z) : Z := wrap (Z.sqrt (p * 2 ^ 64)).

Definition K : list Z := Eval vm_compute in map frac_cube_root first_primes.

(** The hash value: eight words. *)
Record state : Type := mkState {
  h0 : Z; h1 : Z; h2 : Z; h3 : Z; h4 : Z; h5 : Z; h6 : Z; h7 : Z
}.

Definition initial : state :=
  Eval vm_compute in
    match map frac_square_root (firstn 8 first_primes) with
    | [a; b; c; d; e; f; g; h] => mkState a b c d e f g h
    | _ => mkState 0 0 0 0 0 0 0 0
    end.

(** Padding: the bit 1, zeros up to 56 modulo 64 bytes, and the length
    in bits as 8 bytes, most significant first. *)
Definition be_bytes (n : nat) (x : Z) : list Z :=
  map (fun i => Z.land (Z.shiftr x (8 * Z.of_nat i)) 255) (rev (seq 0 n)).

Definition pad (msg : list Z) : list Z :=
  let len := Z.of_nat (List.length msg) in
  (msg ++ [128] ++ repeat 0 (Z.to_nat ((55 - len) mod 64)) ++ be_bytes 8 (8 * len))%list.

(** Four bytes to a word, sixteen words to a block. *)
Fixpoint words (n : nat) (bytes : list Z) : list Z :=
  match n with
  | O => []
  | S n' =>
      match bytes with
      | b0 :: b1 :: b2 :: b3 :: bytes' =>
          (Z.shiftl b0 24 + Z.shiftl b1 16 + Z.shiftl b2 8 + b3) :: words n' bytes'
      | _ => []
      end
  end.

Fixpoint blocks (n : nat) (ws : list Z) : list (list Z) :=
  match n with
  | O => []
  | S n' => firstn 16 ws :: blocks n' (skipn 16 ws)
  end.

(** The message schedule, latest word first: [W_t] from [W_(t-2)],
    [W_(t-7)], [W_(t-15)] and [W_(t-16)]. *)
Fixpoint extend (n : nat) (rev_w : list Z) : list Z :=
  match n with
  | O => rev_w
  | S n' =>
      let w := add32 (add32 (sigma1 (nth 1 rev_w 0)) (nth 6 rev_w 0))
                     (add32 (sigma0 (nth 14 rev_w 0)) (nth 15 rev_w 0)) in
      extend n' (w :: rev_w)
  end.

Definition schedule (block : list Z) : list Z := rev (extend 48 (rev block)).

Definition round (s : state) (kw : Z * Z) : state :=
  let '(k, w) := kw in
  let t1 := add32 (add32 (add32 (h7 s) (Sigma1 (h4 s))) (Ch (h4 s) (h5 s) (h6 s)))
                  (add32 k w) in
  let t2 := add32 (Sigma0 (h0 s)) (Maj (h0 s) (h1 s) (h2 s)) in
  mkState (add32 t1 t2) (h0 s) (h1 s) (h2 s) (add32 (h3 s) t1) (h4 s) (h5 s) (h6 s).

Definition compress (s : state) (block : list Z) : state :=
  let r := fold_left round (combine K (schedule block)) s in
  mkState (add32 (h0 s) (h0 r)) (add32 (h1 s) (h1 r)) (add32 (h2 s) (h2 r))
          (add32 (h3 s) (h3 r)) (add32 (h4 s) (h4 r)) (add32 (h5 s) (h5 r))
          (add32 (h6 s) (h6 r)) (add32 (h7 s) (h7 r)).

(** [hashlib.sha256(msg)] *)
Definition sha256 (msg : list Z) : state :=
  let bytes := pad msg in
  let ws := words (List.length bytes / 4) bytes in
  fold_left compress (blocks (List.length ws / 16) ws) initial.

Definition hex_char (n : Z) : ascii :=
  match Z.land n 15 with
  | 0 => "0" | 1 => "1" | 2 => "2" | 3 => "3" | 4 => "4" | 5 => "5"
  | 6 => "6" | 7 => "7" | 8 => "8" | 9 => "9" | 10 => "a" | 11 => "b"
  | 12 => "c" | 13 => "d" | 14 => "e" | _ => "f"
  end%char.

(** The eight hexadecimal digits of a word. *)
Definition hex8 (w : Z) : string :=
  String (hex_char (Z.shiftr w 28)) (String (hex_char (Z.shiftr w 24))
  (String (hex_char (Z.shiftr w 20)) (String (hex_char (Z.shiftr w 16))
  (String (hex_char (Z.shiftr w 12)) (String (hex_char (Z.shiftr w 8))
  (String (hex_char (Z.shiftr w 4)) (String (hex_char w) EmptyString))))))).

(** [.hexdigest()] *)
Definition hexdigest (s : state) : string :=
  (hex8 (h0 s) ++ hex8 (h1 s) ++ hex8 (h2 s) ++ hex8 (h3 s)
   ++ hex8 (h4 s) ++ hex8 (h5 s) ++ hex8 (h6 s) ++ hex8 (h7 s))%string.

End Sha256.

(* ===================================================================== *)
(** * [urllib.parse.urlparse] *)
(* ===================================================================== *)

Module UrlParse.

Import PyStr.

(** The six fields of [urlparse]'s result. *)
Record ParseResult : Type := mkParseResult {
  scheme : string;
  netloc : string;
  path : string;
  params : string;
  query : string;
  fragment : string
}.

(** C0 control characters and the space, which [urlsplit] strips from
    the left; tab, carriage return and line feed, which it removes
    everywhere. *)
Definition c0_or_space (c : ascii) : bool := N.leb (code c) 32.
Definition unsafe_byte (c : ascii) : bool :=
  (N.eqb (code c) 9 || N.eqb (code c) 13 || N.eqb (code c) 10)%bool.

(** [c.isascii() and c.isalpha()], and membership in [scheme_chars]. *)
Definition ascii_alpha (c : ascii) : bool :=
  (in_range 65 90 c || in_range 97 122 c)%bool.
Definition scheme_char (c : ascii) : bool :=
  (in_range 97 122 c || in_range 65 90 c || in_range 48 57 c
   || Ascii.eqb c "+" || Ascii.eqb c "-" || Ascii.eqb c ".")%bool.

Definition uses_params : list string :=
  [ ""; "ftp"; "hdl"; "prospero"; "http"; "imap"; "https"; "shttp"; "rtsp";
    "rtspu"; "sip"; "sips"; "mms"; "sftp"; "tel" ].

Fixpoint forall_chars (p : ascii -> bool) (s : string) : bool :=
  match s with
  | EmptyString => true
  | String c s' => (p c && forall_chars p s')%bool
  end.

(** [s.split(c, 1)] when [c] occurs in [s]; [(s, "")] otherwise, which
    is what the callers below keep in that case. *)
Fixpoint cut_at (c : ascii) (s : string) : string * string :=
  match s with
  | EmptyString => (EmptyString, EmptyString)
  | String a s' =>
      if Ascii.eqb a c then (EmptyString, s')
      else let '(l, r) := cut_at c s' in (String a l, r)
  end.

(** The scheme, when the text before the first colon is one. *)
Definition split_scheme (url : string) : string * string :=
  match find ":" url, url with
  | Some (S i), String c0 _ =>
      if (ascii_alpha c0 && forall_chars scheme_char (slice_to url (S i)))%bool
      then (lower (slice_to url (S i)), slice_from url (S (S i)))
      else (EmptyString, url)
  | _, _ => (EmptyString, url)
  end.

(** [_splitnetloc(url, 2)]: the authority runs to the first of [/?#]. *)
Definition netloc_char (c : ascii) : bool :=
  negb (Ascii.eqb c "/" || Ascii.eqb c "?" || Ascii.eqb c "#").

Fixpoint span_while (p : ascii -> bool) (s : string) : string * string :=
  match s with
  | EmptyString => (EmptyString, EmptyString)
  | String a s' =>
      if p a then let '(l, r) := span_while p s' in (String a l, r)
      else (EmptyString, s)
  end.

(** [_splitparams(url)] when [;] occurs in [url]. *)
Fixpoint rfind_slash (s : string) : option nat :=
  match s with
  | EmptyString => None
  | String a s' =>
      match rfind_slash s' with
      | Some i => Some (S i)
      | None => if Ascii.eqb a "/" then Some 0 else None
      end
  end.

Definition splitparams (url : string) : string * string :=
  match rfind_slash url with
  | Some j =>
      match find ";" (slice_from url j) with
      | Some i => (slice_to url (j + i), slice_from url (S (j + i)))
      | None => (url, EmptyString)
      end
  | None =>
      match find ";" url with
      | Some i => (slice_to url i, slice_from url (S i))
      | None => (url, EmptyString)
      end
  end.

Section Urlsplit.

(** [_check_bracketed_netloc]: the check of an authority that has both
    square brackets. It depends on the CPython version (none before
    3.11.4, an IP-literal check since), so it is a parameter: [None]
    when the authority passes, else the text of the [ValueError]. *)
Variable check_bracketed_netloc : string -> option string.

(** [urlsplit(url)], as a [ParseResult] with empty [params]. The
    normalisation check [_checknetloc] never fails on code points below
    256 and is left out. *)
Definition urlsplit (url : string) : result ParseResult :=
  let url := lstrip_by c0_or_space url in
  let url := remove_chars unsafe_byte url in
  let '(scheme, url) := split_scheme url in
  r <- (if prefix "//" url then
          let '(netloc, rest) := span_while netloc_char (slice_from url 2) in
          let open := contains "[" netloc in
          let close := contains "]" netloc in
          if (open && negb close) || (close && negb open) then
            raise (ValueError "Invalid IPv6 URL")
          else if open && close then
            match check_bracketed_netloc netloc with
            | Some msg => raise (ValueError msg)
            | None => ok (netloc, rest)
            end
          else ok (netloc, rest)
        else ok (EmptyString, url)) ;;
  let '(netloc, url) := r in
  let '(url, fragment) := cut_at "#" url in
  let '(url, query) := cut_at "?" url in
  ok (mkParseResult scheme netloc url EmptyString query fragment).

(** [urlparse(url)] *)
Definition urlparse (url : string) : result ParseResult :=
  r <- urlsplit url ;;
  if (existsb (String.eqb (scheme r)) uses_params && contains ";" (path r))%bool
  then
    let '(url, params) := splitparams (path r) in
    ok (mkParseResult (scheme r) (netloc r) url params (query r) (fragment r))
  else ok r.

End Urlsplit.

End UrlParse.

(* ===================================================================== *)
(** * [datetime.datetime] *)
(* ===================================================================== *)

Module DateTime.

(** A [datetime]: its fields and, for an aware value, the offset from
    UTC in whole seconds. *)
Record datetime : Type := mkDatetime {
  year : nat; month : nat; day : nat;
  hour : nat; minute : nat; second : nat;
  microsecond : nat;
  utcoffset : option Z
}.

Definition is_leap (y : nat) : bool :=
  (Nat.eqb (y mod 4) 0 && (negb (Nat.eqb (y mod 100) 0) || Nat.eqb (y mod 400) 0))%bool.

Definition days_in_month (y m : nat) : nat :=
  match m with
  | 2 => if is_leap y then 29 else 28
  | 4 | 6 | 9 | 11 => 30
  | _ => 31
  end.

Definition between (lo hi x : Z) : bool := (Z.leb lo x && Z.leb x hi)%bool.

(** [datetime(y, mo, d, h, mi, s)]: a naive value, or [ValueError] for a
    field out of range. *)
Definition make (y mo d h mi s : Z) : result datetime :=
  if negb (between 1 9999 y) then raise (ValueError "year is out of range")
  else if negb (between 1 12 mo) then raise (ValueError "month must be in 1..12")
  else if negb (between 1 (Z.of_nat (days_in_month (Z.to_nat y) (Z.to_nat mo))) d)
       then raise (ValueError "day is out of range for month")
  else if negb (between 0 23 h) then raise (ValueError "hour must be in 0..23")
  else if negb (between 0 59 mi) then raise (ValueError "minute must be in 0..59")
  else if negb (between 0 59 s) then raise (ValueError "second must be in 0..59")
  else ok (mkDatetime (Z.to_nat y) (Z.to_nat mo) (Z.to_nat d)
                      (Z.to_nat h) (Z.to_nat mi) (Z.to_nat s) 0 None).

(** ["%0<width>d" % n] *)
Fixpoint zeros (n : nat) : string :=
  match n with O => EmptyString | S n' => String "0" (zeros n') end.

Definition decimal (n : nat) : string := NilEmpty.string_of_uint (Nat.to_uint n).

Definition zfill (width n : nat) : string :=
  let d := decimal n in zeros (width - String.length d) ++ d.

(** The offset as [+HH:MM], with [:SS] when it has seconds. *)
Definition format_offset (off : Z) : string :=
  let sign := if Z.ltb off 0 then "-" else "+" in
  let a := Z.to_nat (Z.abs off) in
  let hh := a / 3600 in
  let mm := (a mod 3600) / 60 in
  let ss := a mod 60 in
  sign ++ zfill 2 hh ++ ":" ++ zfill 2 mm
       ++ (if Nat.eqb ss 0 then EmptyString else ":" ++ zfill 2 ss).

(** [d.isoformat()] *)
Definition isoformat (d : datetime) : string :=
  zfill 4 (year d) ++ "-" ++ zfill 2 (month d) ++ "-" ++ zfill 2 (day d)
  ++ "T" ++ zfill 2 (hour d) ++ ":" ++ zfill 2 (minute d) ++ ":" ++ zfill 2 (second d)
  ++ (if Nat.eqb (microsecond d) 0 then EmptyString
      else "." ++ zfill 6 (microsecond d))
  ++ (match utcoffset d with
      | Some off => format_offset off
      | None => EmptyString
      end).

End DateTime.

(* ===================================================================== *)
(** * [app/models.py]: enumerations *)
(* ===================================================================== *)

Inductive SourceType : Type := RSS | API | MANUAL.
Inductive ItemType : Type := FUNDING | COMPANY.
Inductive IngestStatus : Type := RUNNING | SUCCESS | FAILED.

(** [ItemType.value] *)
Definition ItemType_value (t : ItemType) : string :=
  match t with FUNDING => "funding" | COMPANY => "company" end.

(* ===================================================================== *)
(** * [app/services/ingestion.py]: classification and extraction *)
(* ===================================================================== *)

Import PyStr Re.

Definition funding_keywords : list string :=
  [ "raise"; "raised"; "funding"; "series"; "seed"; "investment";
    "million"; "billion"; "$"; "valuation"; "round"; "venture";
    "backed"; "investor"; "capital"; "led by" ].

(** The loop over the keywords returns at the first one found. *)
Definition determine_item_type
  (title summary : string) (category : option string) : ItemType :=
  let title_lower := lower title in
  let summary_lower := lower summary in
  if existsb (fun keyword =>
                contains keyword title_lower || contains keyword summary_lower)
             funding_keywords
  then FUNDING
  else
    match category with
    | Some c =>
        if negb (String.eqb c "") && contains "funding" (lower c)
        then FUNDING else COMPANY
    | None => COMPANY
    end.

(** [[A-Z]] and [[A-Za-z0-9\s\.]] *)
Definition cls_AZ (c : ascii) : bool := in_range 65 90 c.
Definition cls_name (c : ascii) : bool :=
  (in_range 65 90 c || in_range 97 122 c || in_range 48 57 c
   || isspace c || Ascii.eqb c ".")%bool.

(** [^([A-Z][A-Za-z0-9\s\.]+?)(?:\s+<verb>s?\s)] *)
Definition verb_pattern (verb : string) : regex :=
  Seq Bol
    (Seq (Group (Seq (Cls cls_AZ) (PlusLazy cls_name)))
         (Seq (Plus isspace) (Seq (Lit verb) (Seq (Opt (Lit "s")) (Cls isspace))))).

Definition company_patterns : list regex :=
  [ verb_pattern "raise";
    verb_pattern "announce";
    verb_pattern "secure";
    verb_pattern "close";
    verb_pattern "get";
    (* ^([A-Z][A-Za-z0-9\s\.]+?)(?:,\s) *)
    Seq Bol
      (Seq (Group (Seq (Cls cls_AZ) (PlusLazy cls_name)))
           (Seq (Lit ",") (Cls isspace))) ].

(** [for pattern in patterns: match = re.match(pattern, title); ...] *)
Fixpoint first_match (patterns : list regex) (title : string) : option match_obj :=
  match patterns with
  | [] => None
  | p :: ps =>
      match re_match p title with
      | Some m => Some m
      | None => first_match ps title
      end
  end.

(** The stop tokens of the fallback. The source list also has the en
    dash U+2013, which no string of the modelled range contains. *)
Definition stop_words : list string :=
  [ "raises"; "announces"; "secures"; "closes"; "gets"; "lands"; "-"; "|" ].

Definition is_stop_word (word : string) : bool :=
  existsb (String.eqb (lower word)) stop_words.

(** The loop that collects [company_words] until it breaks. *)
Fixpoint take_company_words (words : list string) : list string :=
  match words with
  | [] => []
  | word :: ws => if is_stop_word word then [] else word :: take_company_words ws
  end.

Definition extract_company_name (title : string) : option string :=
  match first_match company_patterns title with
  | Some m => Some (strip (group1 m))
  | None =>
      let words := split title in
      if Nat.leb 2 (List.length words) then
        match take_company_words (firstn 5 words) with
        | [] => None
        | company_words => Some (join " " company_words)
        end
      else None
  end.

(** The [details] dictionary of [extract_funding_details]. *)
Record funding_details_dict : Type := mkFunding {
  round_type : option string;
  amount_usd : option PyFloat.float;
  investors : list string
}.

Definition cls_az (c : ascii) : bool := in_range 97 122 c.

Definition round_patterns : list (regex * (match_obj -> string)) :=
  [ (* series\s+([a-z]) *)
    (Seq (Lit "series") (Seq (Plus isspace) (Group (Cls cls_az))),
     fun m => "series_" ++ group1 m);
    (* seed\s+round *)
    (Seq (Lit "seed") (Seq (Plus isspace) (Lit "round")), fun _ => "seed");
    (* pre-seed *)
    (Lit "pre-seed", fun _ => "pre_seed");
    (* seed *)
    (Lit "seed", fun _ => "seed");
    (* series\s+([a-z])\d? *)
    (Seq (Lit "series")
         (Seq (Plus isspace) (Seq (Group (Cls cls_az)) (Opt (Cls isdigit)))),
     fun m => "series_" ++ group1 m);
    (* growth\s+round *)
    (Seq (Lit "growth") (Seq (Plus isspace) (Lit "round")), fun _ => "growth");
    (* bridge\s+round *)
    (Seq (Lit "bridge") (Seq (Plus isspace) (Lit "round")), fun _ => "bridge") ].

(** [for pattern, extractor in round_patterns: ... break] *)
Fixpoint extract_round
  (patterns : list (regex * (match_obj -> string))) (text : string)
  : option string :=
  match patterns with
  | [] => None
  | (pattern, extractor) :: ps =>
      match re_search pattern text with
      | Some m => Some (extractor m)
      | None => extract_round ps text
      end
  end.

(** [\d+(?:\.\d+)?] in a group *)
Definition number_group : regex :=
  Group (Seq (Plus isdigit) (Opt (Seq (Lit ".") (Plus isdigit)))).

(** [\$(\d+(?:\.\d+)?)\s*(?:million|m\b)] *)
Definition amount_pattern_million : regex :=
  Seq (Lit "$")
    (Seq number_group
       (Seq (Star isspace) (Alt (Lit "million") (Seq (Lit "m") WordB)))).

(** [\$(\d+(?:\.\d+)?)\s*(?:billion|b\b)] *)
Definition amount_pattern_billion : regex :=
  Seq (Lit "$")
    (Seq number_group
       (Seq (Star isspace) (Alt (Lit "billion") (Seq (Lit "b") WordB)))).

(** [(\d+(?:\.\d+)?)\s*(?:million|m)\s*(?:dollars|\$)] *)
Definition amount_pattern_dollars : regex :=
  Seq number_group
    (Seq (Star isspace)
       (Seq (Alt (Lit "million") (Lit "m"))
          (Seq (Star isspace) (Alt (Lit "dollars") (Lit "$"))))).

Definition amount_patterns : list regex :=
  [ amount_pattern_million; amount_pattern_billion; amount_pattern_dollars ].

(** The test that decides the multiplication by 1000:
    ['billion' in text[start:end+10].lower() or 'b' in text[start:end+3].lower()] *)
Definition billion_test (text : string) (m : match_obj) : bool :=
  (contains "billion" (lower (slice text (m_start m) (m_end m + 10)))
   || contains "b" (lower (slice text (m_start m) (m_end m + 3))))%bool.

Definition amount_of_match (text : string) (m : match_obj) : PyFloat.float :=
  let amount := PyFloat.of_decimal (group1 m) in
  let amount :=
    if billion_test text m then PyFloat.mul amount (PyFloat.of_Z 1000)
    else amount in
  PyFloat.mul amount (PyFloat.of_Z 1000000).

(** [for pattern in amount_patterns: ... break] *)
Fixpoint extract_amount (patterns : list regex) (text : string)
  : option PyFloat.float :=
  match patterns with
  | [] => None
  | pattern :: ps =>
      match re_search pattern text with
      | Some m => Some (amount_of_match text m)
      | None => extract_amount ps text
      end
  end.

Definition extract_funding_details (title summary : string)
  : funding_details_dict :=
  let text := lower (title ++ " " ++ summary) in
  {| round_type := extract_round round_patterns text;
     amount_usd := extract_amount amount_patterns text;
     investors := [] |}.

(* ===================================================================== *)
(** * [app/services/ingestion.py]: the deduplication hash *)
(* ===================================================================== *)

Section Hash.

(** The version-dependent check of [urlsplit], see [UrlParse]. *)
Variable check_bracketed_netloc : string -> option string.

(** The text that is hashed. *)
Definition hash_content
  (parsed : UrlParse.ParseResult) (title : string)
  (published_at : option DateTime.datetime) : string :=
  let normalized_url :=
    strip_chars "/" (lower (UrlParse.netloc parsed ++ UrlParse.path parsed)) in
  let normalized_title := strip (lower title) in
  let date_str :=
    match published_at with
    | Some d => DateTime.isoformat d
    | None => EmptyString
    end in
  normalized_url ++ "|" ++ normalized_title ++ "|" ++ date_str.

Definition create_item_hash
  (url title : string) (published_at : option DateTime.datetime)
  : result string :=
  parsed <- UrlParse.urlparse check_bracketed_netloc url ;;
  let content := hash_content parsed title published_at in
  ok (Sha256.hexdigest (Sha256.sha256 (encode_utf8 content))).

End Hash.

(* ===================================================================== *)
(** * JSON values and [int()] *)
(* ===================================================================== *)

(** What [json.loads] returns. A [dict] is the list of its items in
    insertion order. *)
#[warnings="-register-all"]
Inductive json : Type :=
| JNull
| JBool (b : bool)
| JInt (n : Z)
| JFloat (f : PyFloat.float)
| JStr (s : string)
| JList (l : list json)
| JObj (items : list (string * json)).

(** [d.get(key)] and [d[key] = v] on the items of a [dict]. *)
Fixpoint dict_get {A} (key : string) (items : list (string * A)) : option A :=
  match items with
  | [] => None
  | (k, v) :: items' => if String.eqb k key then Some v else dict_get key items'
  end.

Fixpoint dict_set {A} (key : string) (v : A) (items : list (string * A))
  : list (string * A) :=
  match items with
  | [] => [(key, v)]
  | (k, w) :: items' =>
      if String.eqb k key then (k, v) :: items'
      else (k, w) :: dict_set key v items'
  end.

Module PyInt.

Local Open Scope Z_scope.

(** [int(s)] for a string: optional whitespace around an optional sign
    and decimal digits, single underscores allowed between digits. *)
Fixpoint digits (acc : Z) (after_digit : bool) (s : string) : option Z :=
  match s with
  | EmptyString => if after_digit then Some acc else None
  | String c s' =>
      if PyStr.isdigit c then
        digits (10 * acc + (Z.of_N (PyStr.code c) - 48)) true s'
      else if (Ascii.eqb c "_" && after_digit)%bool then
        match s' with
        | String d _ => if PyStr.isdigit d then digits acc false s' else None
        | EmptyString => None
        end
      else None
  end.

Definition of_str (s : string) : result Z :=
  let t := PyStr.strip s in
  let '(negative, body) :=
    match t with
    | String "-" r => (true, r)
    | String "+" r => (false, r)
    | _ => (false, t)
    end in
  match digits 0 false body with
  | Some n => ok (if negative then - n else n)
  | None => raise (ValueError "invalid literal for int() with base 10")
  end.

(** [int(x)] for a float: truncation towards zero. *)
Definition of_float (f : PyFloat.float) : result Z :=
  match f with
  | S754_zero _ => ok 0
  | S754_finite s m e =>
      let a := if Z.leb 0 e then Zpos m * 2 ^ e else Zpos m / 2 ^ (- e) in
      ok (if s then - a else a)
  | S754_infinity _ => raise (OverflowError "cannot convert float infinity to integer")
  | S754_nan => raise (ValueError "cannot convert float NaN to integer")
  end.

(** [int(x)] for a value of [json.loads]. *)
Definition of_json (x : json) : result Z :=
  match x with
  | JInt n => ok n
  | JBool b => ok (if b then 1 else 0)
  | JFloat f => of_float f
  | JStr s => of_str s
  | JNull | JList _ | JObj _ =>
      raise (TypeError "int() argument must be a string, a bytes-like object or a real number")
  end.

End PyInt.

(* ===================================================================== *)
(** * [app/models.py]: the tables *)
(* ===================================================================== *)

Record Source : Type := mkSource {
  source_id : nat;
  source_name : string;
  source_type : SourceType;
  source_url : string;
  source_enabled : bool;
  source_category : option string
}.

Record Item : Type := mkItem {
  item_id : nat;
  item_type : ItemType;
  item_title : string;
  item_company_name : option string;
  item_url : string;
  item_source_id : option nat;
  item_published_at : option DateTime.datetime;
  item_summary : option string;
  item_hash : string
}.

Record FundingDetails : Type := mkFundingDetails {
  fd_item_id : nat;
  fd_round_type : option string;
  fd_amount_usd : option PyFloat.float;
  fd_investors : list string
}.

Record CompanyDetails : Type := mkCompanyDetails {
  cd_item_id : nat;
  cd_one_liner : option string
}.

Record MenaAnalysis : Type := mkMenaAnalysis {
  ma_item_id : nat;
  ma_fit_score : Z;
  ma_mena_summary : json;
  ma_rubric_json : list (string * json);
  ma_model_name : string
}.

Record IngestRun : Type := mkIngestRun {
  run_id : nat;
  run_source_id : nat;
  run_finished : bool;
  run_status : IngestStatus;
  run_items_added : nat;
  run_error : option string
}.

(** The committed rows of the database, each table in insertion order,
    and the next value of the sequences the model needs. The store takes
    every row it is handed: the length limits of the columns
    ([String(500)] for a title, [String(255)] for a company name) are
    not part of the model. *)
Record database : Type := mkDatabase {
  sources : list Source;
  items : list Item;
  funding_details : list FundingDetails;
  company_details : list CompanyDetails;
  mena_analysis : list MenaAnalysis;
  ingest_runs : list IngestRun;
  next_source_id : nat;
  next_item_id : nat;
  next_run_id : nat
}.

Definition set_sources (l : list Source) (n : nat) (db : database) : database :=
  mkDatabase l (items db) (funding_details db) (company_details db)
             (mena_analysis db) (ingest_runs db) n (next_item_id db) (next_run_id db).

Definition set_mena_analysis (l : list MenaAnalysis) (db : database) : database :=
  mkDatabase (sources db) (items db) (funding_details db) (company_details db)
             l (ingest_runs db) (next_source_id db) (next_item_id db) (next_run_id db).

Definition set_ingest_runs (l : list IngestRun) (n : nat) (db : database) : database :=
  mkDatabase (sources db) (items db) (funding_details db) (company_details db)
             (mena_analysis db) l (next_source_id db) (next_item_id db) n.

Definition set_next_item_id (n : nat) (db : database) : database :=
  mkDatabase (sources db) (items db) (funding_details db) (company_details db)
             (mena_analysis db) (ingest_runs db) (next_source_id db) n (next_run_id db).

(** [db.query(T).filter(...).first()] *)
Definition first_where {A} (p : A -> bool) (rows : list A) : option A :=
  List.find p rows.

(* ===================================================================== *)
(** * [app/services/analysis.py] *)
(* ===================================================================== *)

(** The result of [get_stub_analysis] and [run_llm_analysis]. The
    summary is whatever [result.get("mena_summary", ...)[:1000]] gave:
    a string, or a list when the model sent one. *)
Record analysis_result : Type := mkAnalysis {
  fit_score : Z;
  mena_summary : json;
  rubric : list (string * json)
}.

Definition get_stub_analysis : analysis_result :=
  {| fit_score := 50;
     mena_summary := JStr "This opportunity requires further analysis to assess MENA applicability. Key factors to evaluate include regional buyer appetite, localization requirements, and regulatory considerations.";
     rubric := [ ("budget_buyer_exists", JInt 10);
                 ("localization_arabic_bilingual", JInt 10);
                 ("regulatory_friction", JInt 10);
                 ("distribution_path", JInt 10);
                 ("time_to_revenue", JInt 10) ] |}.

Definition rubric_keys : list string :=
  [ "budget_buyer_exists"; "localization_arabic_bilingual";
    "regulatory_friction"; "distribution_path"; "time_to_revenue" ].

(** The text handed to [json.loads]: a reply that starts with a code
    fence is cut down to what stands between the first two fences, less
    a leading "json". *)
Definition fence : string := "```".

Definition between_fences (content : string) : string :=
  (* content.split(fence)[1] for a content that starts with the fence *)
  let after := slice_from content 3 in
  match find fence after with
  | Some i => slice_to after i
  | None => after
  end.

Definition extract_json_text (reply : string) : string :=
  let content := strip reply in
  if startswith fence content then
    let content := between_fences content in
    if startswith "json" content then slice_from content 4 else content
  else content.

(** [x[:1000]] on the value of the summary. *)
Definition summary_slice (x : json) : result json :=
  match x with
  | JStr s => ok (JStr (slice_to s 1000))
  | JList l => ok (JList (firstn 1000 l))
  | _ => raise (TypeError "object is not subscriptable")
  end.

(** The loop over the five rubric keys, on the items of the rubric. *)
Fixpoint sanitize_rubric (keys : list string) (rubric : list (string * json))
  : result (list (string * json)) :=
  match keys with
  | [] => ok rubric
  | key :: keys' =>
      match dict_get key rubric with
      | Some v =>
          n <- PyInt.of_json v ;;
          sanitize_rubric keys' (dict_set key (JInt (Z.min 20 (Z.max 0 n))) rubric)
      | None => sanitize_rubric keys' (dict_set key (JInt 10) rubric)
      end
  end.

(** "Validate and sanitize": from the parsed reply to the result. Only a
    [dict] has [.get]; only a [dict] rubric supports both [key in rubric]
    and [rubric[key] = ...]. *)
Definition sanitize (parsed : json) : result analysis_result :=
  match parsed with
  | JObj result =>
      n <- PyInt.of_json (match dict_get "fit_score" result with
                          | Some v => v
                          | None => JInt 50
                          end) ;;
      let fit_score := Z.min 100 (Z.max 0 n) in
      mena_summary <- summary_slice (match dict_get "mena_summary" result with
                                     | Some v => v
                                     | None => JStr "Analysis completed."
                                     end) ;;
      match (match dict_get "rubric" result with
             | Some v => v
             | None => JObj []
             end) with
      | JObj rubric =>
          rubric <- sanitize_rubric rubric_keys rubric ;;
          ok {| fit_score := fit_score; mena_summary := mena_summary; rubric := rubric |}
      | _ => raise (TypeError "rubric is not a dict")
      end
  | _ => raise (OtherError "object has no attribute 'get'")
  end.

(** An entry of a parsed feed, as the attribute reads of
    [parse_rss_feed] see it: [None] where [hasattr] or [get] finds
    nothing (for [published_parsed] also where the value is [None]). The
    date fields are the first six of the time tuple. *)
Record entry : Type := mkEntry {
  entry_published_parsed : option (Z * Z * Z * Z * Z * Z);
  entry_published : option string;
  entry_summary : option string;
  entry_description : option string;
  entry_title : option string;
  entry_link : option string
}.

(** What lies outside the program. *)
Record env : Type := mkEnv {
  (* settings *)
  openai_api_key : string;
  openai_model : string;
  (* the chat completion for an item: the content of its first choice,
     or the exception of the call *)
  llm_reply : Item -> result string;
  (* json.loads *)
  json_loads : string -> result json;
  (* whether the job queue accepts a job *)
  queue_up : bool;
  (* feedparser.parse(url).entries, or the exception of the call *)
  feed_entries : string -> result (list entry);
  (* dateutil's parser *)
  dateutil_parse : string -> result DateTime.datetime;
  (* the version-dependent check of urlsplit *)
  check_bracketed_netloc : string -> option string
}.

(** Any exception inside the [try] gives the stub. *)
Definition run_llm_analysis (e : env) (item : Item) : analysis_result :=
  if String.eqb (openai_api_key e) "" then get_stub_analysis
  else
    match (reply <- llm_reply e item ;;
           parsed <- json_loads e (extract_json_text reply) ;;
           sanitize parsed) with
    | inr r => r
    | inl _ => get_stub_analysis
    end.

(** The dictionary [analyze_item] returns. *)
Inductive analyze_outcome : Type :=
| AnalyzeError (message : string)
| AnalyzeSkipped (message : string)
| AnalyzeSuccess (fit_score : Z).

Definition analyze_item (e : env) (id : nat) (db : database)
  : analyze_outcome * database :=
  match first_where (fun i => Nat.eqb (item_id i) id) (items db) with
  | None => (AnalyzeError "Item not found", db)
  | Some item =>
      match first_where (fun a => Nat.eqb (ma_item_id a) id) (mena_analysis db) with
      | Some _ => (AnalyzeSkipped "Analysis already exists", db)
      | None =>
          let result := run_llm_analysis e item in
          let analysis :=
            {| ma_item_id := id;
               ma_fit_score := fit_score result;
               ma_mena_summary := mena_summary result;
               ma_rubric_json := rubric result;
               ma_model_name :=
                 if String.eqb (openai_api_key e) "" then "stub"
                 else openai_model e |} in
          (AnalyzeSuccess (fit_score result),
           set_mena_analysis (mena_analysis db ++ [analysis]) db)
      end
  end.

(** A job handed to the queue: the function and its argument. *)
Inductive job : Type :=
| JobAnalyzeItem (id : nat)
| JobIngestSource (id : nat)
| JobIngestAllSources.

(** The database and the job queue. *)
Record world : Type := mkWorld {
  w_db : database;
  w_queue : list job
}.

(** [enqueue_analysis]: the job id, or [None] after the synchronous
    fallback. *)
Definition enqueue_analysis (e : env) (id : nat) (w : world)
  : option nat * world :=
  if queue_up e then
    (Some (List.length (w_queue w)),
     mkWorld (w_db w) (w_queue w ++ [JobAnalyzeItem id]))
  else
    let '(_, db') := analyze_item e id (w_db w) in
    (None, mkWorld db' (w_queue w)).

(** [reanalyze_all_items]: the items without analysis, then one
    [enqueue_analysis] each. *)
Definition has_analysis (db : database) (i : Item) : bool :=
  existsb (fun a => Nat.eqb (ma_item_id a) (item_id i)) (mena_analysis db).

Fixpoint enqueue_each (e : env) (ids : list nat) (count : nat) (w : world)
  : nat * world :=
  match ids with
  | [] => (count, w)
  | id :: ids' =>
      let '(_, w') := enqueue_analysis e id w in
      enqueue_each e ids' (S count) w'
  end.

Definition reanalyze_all_items (e : env) (w : world) : nat * world :=
  let items_without_analysis :=
    filter (fun i => negb (has_analysis (w_db w) i)) (items (w_db w)) in
  enqueue_each e (map item_id items_without_analysis) 0 w.

(* ===================================================================== *)
(** * [app/services/ingestion.py]: fetching and the orchestrator *)
(* ===================================================================== *)

(** The dictionaries [parse_rss_feed] returns. *)
Record candidate : Type := mkCandidate {
  cand_title : string;
  cand_url : string;
  cand_published_at : option DateTime.datetime;
  cand_summary : string;
  cand_raw : entry
}.

(** A failed conversion leaves the date unset: both [try] blocks pass on
    any exception. A time tuple that is present but invalid does not
    fall back to the text. *)
Definition entry_published_at (e : env) (en : entry) : option DateTime.datetime :=
  match entry_published_parsed en with
  | Some (y, mo, d, h, mi, s) =>
      match DateTime.make y mo d h mi s with
      | inr dt => Some dt
      | inl _ => None
      end
  | None =>
      match entry_published en with
      | Some text =>
          match dateutil_parse e text with
          | inr dt => Some dt
          | inl _ => None
          end
      | None => None
      end
  end.

Definition candidate_of_entry (e : env) (en : entry) : candidate :=
  let summary :=
    match entry_summary en with
    | Some s => s
    | None =>
        match entry_description en with
        | Some s => s
        | None => EmptyString
        end
    end in
  let summary := slice_to (strip_tags summary) 500 in
  {| cand_title := match entry_title en with Some t => t | None => "Untitled" end;
     cand_url := match entry_link en with Some l => l | None => EmptyString end;
     cand_published_at := entry_published_at e en;
     cand_summary := summary;
     cand_raw := en |}.

Definition parse_rss_feed (e : env) (url : string) : list candidate :=
  match feed_entries e url with
  | inr entries => map (candidate_of_entry e) entries
  | inl _ => []
  end.

(** The rows a session has added and flushed but not yet committed. *)
Record session : Type := mkSession {
  s_items : list Item;
  s_funding : list FundingDetails;
  s_company : list CompanyDetails
}.

Definition empty_session : session := mkSession [] [] [].

(** [db.commit()]: the pending rows join the tables. *)
Definition commit (s : session) (db : database) : database :=
  mkDatabase (sources db) (items db ++ s_items s)
             (funding_details db ++ s_funding s)
             (company_details db ++ s_company s)
             (mena_analysis db) (ingest_runs db)
             (next_source_id db) (next_item_id db) (next_run_id db).

(** [SourceType.value] *)
Definition SourceType_value (t : SourceType) : string :=
  match t with RSS => "rss" | API => "api" | MANUAL => "manual" end.

(** The state of a pass over one source. *)
Record pass_state : Type := mkPass {
  ps_world : world;
  ps_session : session;
  ps_added : nat
}.

(** One turn of the loop over the parsed items; [inl] carries the
    exception together with the state reached. *)
Definition ingest_candidate (e : env) (source : Source) (c : candidate)
  (st : pass_state) : exn * pass_state + pass_state :=
  if String.eqb (cand_url c) "" then inr st
  else
    match create_item_hash (check_bracketed_netloc e)
            (cand_url c) (cand_title c) (cand_published_at c) with
    | inl x => inl (x, st)
    | inr hash_value =>
        let db := w_db (ps_world st) in
        match first_where (fun i => String.eqb (item_hash i) hash_value)
                (items db ++ s_items (ps_session st)) with
        | Some _ => inr st
        | None =>
            let type := determine_item_type (cand_title c) (cand_summary c)
                          (source_category source) in
            let company_name := extract_company_name (cand_title c) in
            let item :=
              {| item_id := next_item_id db;
                 item_type := type;
                 item_title := cand_title c;
                 item_company_name := company_name;
                 item_url := cand_url c;
                 item_source_id := Some (source_id source);
                 item_published_at := cand_published_at c;
                 item_summary := Some (cand_summary c);
                 item_hash := hash_value |} in
            let db := set_next_item_id (S (next_item_id db)) db in
            let s := ps_session st in
            let s :=
              match type with
              | FUNDING =>
                  let funding := extract_funding_details (cand_title c) (cand_summary c) in
                  mkSession (s_items s ++ [item])
                    (s_funding s ++ [ {| fd_item_id := item_id item;
                                         fd_round_type := round_type funding;
                                         fd_amount_usd := amount_usd funding;
                                         fd_investors := investors funding |} ])
                    (s_company s)
              | COMPANY =>
                  mkSession (s_items s ++ [item]) (s_funding s)
                    (s_company s ++ [ {| cd_item_id := item_id item;
                                         cd_one_liner :=
                                           if String.eqb (cand_summary c) "" then None
                                           else Some (slice_to (cand_summary c) 200) |} ])
              end in
            let '(_, w) := enqueue_analysis e (item_id item)
                             (mkWorld db (w_queue (ps_world st))) in
            inr (mkPass w s (S (ps_added st)))
        end
    end.

Fixpoint ingest_candidates (e : env) (source : Source) (cs : list candidate)
  (st : pass_state) : exn * pass_state + pass_state :=
  match cs with
  | [] => inr st
  | c :: cs' =>
      match ingest_candidate e source c st with
      | inl x => inl x
      | inr st' => ingest_candidates e source cs' st'
      end
  end.

(** The dictionary [ingest_source] returns. *)
Inductive ingest_outcome : Type :=
| IngestSkipped (reason : string)
| IngestSuccess (items_added : nat)
| IngestFailed (error : string).

(** The run row of the pass gets its final fields. *)
Definition finish_run (id : nat) (status : IngestStatus) (added : nat)
  (error : option string) (runs : list IngestRun) : list IngestRun :=
  map (fun r =>
         if Nat.eqb (run_id r) id
         then mkIngestRun (run_id r) (run_source_id r) true status
                (match status with SUCCESS => added | _ => run_items_added r end)
                (match error with Some x => Some x | None => run_error r end)
         else r) runs.

Definition ingest_source (e : env) (id : nat) (w : world) : ingest_outcome * world :=
  let db := w_db w in
  match first_where (fun s => Nat.eqb (source_id s) id) (sources db) with
  | None => (IngestSkipped "Source not found or disabled", w)
  | Some source =>
      if negb (source_enabled source)
      then (IngestSkipped "Source not found or disabled", w)
      else
        let rid := next_run_id db in
        let run := mkIngestRun rid id false RUNNING 0 None in
        let db := set_ingest_runs (ingest_runs db ++ [run]) (S rid) db in
        let st := mkPass (mkWorld db (w_queue w)) empty_session 0 in
        let parsed_items :=
          if String.eqb (SourceType_value (source_type source)) "rss"
          then parse_rss_feed e (source_url source) else [] in
        match ingest_candidates e source parsed_items st with
        | inr st' =>
            let db := commit (ps_session st') (w_db (ps_world st')) in
            let db := set_ingest_runs
                        (finish_run rid SUCCESS (ps_added st') None (ingest_runs db))
                        (next_run_id db) db in
            (IngestSuccess (ps_added st'), mkWorld db (w_queue (ps_world st')))
        | inl (x, st') =>
            let db := commit (ps_session st') (w_db (ps_world st')) in
            let db := set_ingest_runs
                        (finish_run rid FAILED 0 (Some (exn_str x)) (ingest_runs db))
                        (next_run_id db) db in
            (IngestFailed (exn_str x), mkWorld db (w_queue (ps_world st')))
        end
  end.

(** [results[source_id] = ...] on the items of the result dictionary. *)
Fixpoint results_set {A} (key : nat) (v : A) (items : list (nat * A))
  : list (nat * A) :=
  match items with
  | [] => [(key, v)]
  | (k, w) :: items' =>
      if Nat.eqb k key then (k, v) :: items'
      else (k, w) :: results_set key v items'
  end.

Fixpoint ingest_each (e : env) (ids : list nat)
  (results : list (nat * ingest_outcome)) (w : world)
  : list (nat * ingest_outcome) * world :=
  match ids with
  | [] => (results, w)
  | id :: ids' =>
      let '(r, w') := ingest_source e id w in
      ingest_each e ids' (results_set id r results) w'
  end.

Definition ingest_all_sources (e : env) (w : world)
  : list (nat * ingest_outcome) * world :=
  let source_ids := map source_id (filter source_enabled (sources (w_db w))) in
  ingest_each e source_ids [] w.

(** [trigger_ingestion]: the id 0 counts as no id; with the queue down
    the call raises. The job id is the place in the queue. *)
Definition trigger_ingestion (e : env) (id : option nat) (w : world)
  : result (nat * world) :=
  if queue_up e then
    let j := match id with
             | Some (S n) => JobIngestSource (S n)
             | _ => JobIngestAllSources
             end in
    ok (List.length (w_queue w), mkWorld (w_db w) (w_queue w ++ [j]))
  else raise (OtherError "Error connecting to the queue").

(* ===================================================================== *)
(** * Vocabulary of the statements *)
(* ===================================================================== *)






(** Every character of [w] is in the class [p]. *)
Fixpoint all_chars (p : ascii -> bool) (w : string) : bool :=
  match w with
  | EmptyString => true
  | String a w' => (p a && all_chars p w')%bool
  end.

(** The texts a pattern can take, whatever surrounds them: the anchors
    [^] and [\b] take the empty text. *)
Fixpoint lang (r : regex) (w : string) : Prop :=
  match r with
  | Lit s => w = s
  | Cls p => exists a, w = String a EmptyString /\ p a = true
  | Seq a b => exists u v, w = u ++ v /\ lang a u /\ lang b v
  | Alt a b => lang a w \/ lang b w
  | Opt a => lang a w \/ w = EmptyString
  | Star p => all_chars p w = true
  | Plus p | PlusLazy p => w <> EmptyString /\ all_chars p w = true
  | Group a => lang a w
  | Bol | WordB => w = EmptyString
  end.

(** The matcher went from [c] to [c'] over the text [w]. *)
Definition spans (c c' : cursor) (w : string) : Prop :=
  rest c = w ++ rest c' /\ pos c' = pos c + String.length w.

(** [c] is a position of the subject [text]. *)
Definition position_of (text : string) (c : cursor) : Prop :=
  exists pre, text = pre ++ rest c /\ pos c = String.length pre.

(** The match [m] lies in [text] and covers a text of [r]. *)
Definition match_in (r : regex) (text : string) (m : match_obj) : Prop :=
  exists pre w post,
    text = pre ++ w ++ post
    /\ m_start m = String.length pre
    /\ m_end m = String.length pre + String.length w
    /\ lang r w.

(** A lower-case hexadecimal digit. *)
Definition is_hex_digit (c : ascii) : bool :=
  (in_range 48 57 c || in_range 97 102 c)%bool.

(** A character other than [c]; neither square bracket. *)
Definition not_char (c a : ascii) : bool := negb (Ascii.eqb a c).

(** A character that can stand in the authority of a URL: none of [/?#]
    and none of tab, carriage return, line feed. *)
Definition host_char (a : ascii) : bool :=
  (UrlParse.netloc_char a && negb (UrlParse.unsafe_byte a))%bool.

(** The text is empty or begins with the character [c]. *)
Definition empty_or_starts (c : ascii) (s : string) : Prop :=
  s = EmptyString \/ exists s', s = String c s'.

(** [min(hi, max(lo, n))] *)
Definition clamp (lo hi n : Z) : Z := Z.min hi (Z.max lo n).

(** The rubric holds an integer between 0 and 20 under [key]. *)
Definition sub_score_ok (rubric : list (string * json)) (key : string) : Prop :=
  exists n, dict_get key rubric = Some (JInt n) /\ (0 <= n <= 20)%Z.

(** What the sanitising loop leaves under [key], given what the model
    sent there. *)
Definition sanitized_entry (sent got : list (string * json)) (key : string) : Prop :=
  match dict_get key sent with
  | None => dict_get key got = Some (JInt 10)
  | Some v => exists n, PyInt.of_json v = inr n
                        /\ dict_get key got = Some (JInt (clamp 0 20 n))
  end.

(** The rubric a reply carries: the value under "rubric" when it is an
    object, no items when the key is missing. *)
Definition sent_rubric (result : list (string * json)) : list (string * json) :=
  match dict_get "rubric" result with
  | Some (JObj r) => r
  | _ => []
  end.

(** No item has two analysis rows. *)
Definition one_analysis_per_item (db : database) : Prop :=
  NoDup (map ma_item_id (mena_analysis db)).

(** Every item of the database has an analysis row. *)
Definition all_analysed (db : database) : Prop :=
  forall i, In i (items db) -> has_analysis db i = true.

(** The outcome of a call that comes after a call with outcome [o]. *)
Definition outcome_of_repeat (o : analyze_outcome) : analyze_outcome :=
  match o with
  | AnalyzeError m => AnalyzeError m
  | _ => AnalyzeSkipped "Analysis already exists"
  end.

(* ===================================================================== *)
(** * Sample surroundings for the closed instances *)
(* ===================================================================== *)

(** Two feeds: the first has a funding story, a product story, a copy
    of the funding story and an entry without link; the second has a
    good entry and then one whose link has an unmatched bracket. *)
Definition sample_entry (title link summary : string) : entry :=
  {| entry_published_parsed := Some (2024, 1, 15, 9, 30, 0)%Z;
     entry_published := None;
     entry_summary := Some summary;
     entry_description := None;
     entry_title := Some title;
     entry_link := Some link |}.

Definition sample_feeds (url : string) : result (list entry) :=
  if String.eqb url "https://news.example.com/rss" then
    ok [ sample_entry "Acme Corp raises $10 million" "https://news.example.com/acme"
           "<p>Acme Corp closed a <b>Series A</b> round.</p>";
         sample_entry "New AI Assistant Launch" "https://news.example.com/assistant"
           "A product story.";
         sample_entry "ACME CORP RAISES $10 MILLION " "https://News.Example.com/acme/"
           "Same story again.";
         sample_entry "No link" "" "Nothing to fetch." ]
  else if String.eqb url "https://broken.example.org/feed" then
    ok [ sample_entry "Stripe, the payments company" "https://broken.example.org/stripe"
           "Payments.";
         sample_entry "Bad link" "http://[broken" "Unmatched bracket.";
         sample_entry "Never reached" "https://broken.example.org/late" "Late." ]
  else raise (OtherError "connection refused").

Definition sample_env : env :=
  {| openai_api_key := "";
     openai_model := "gpt-4o-mini";
     llm_reply := fun _ => raise (OtherError "no model");
     json_loads := fun _ => raise (ValueError "Expecting value");
     queue_up := true;
     feed_entries := sample_feeds;
     dateutil_parse := fun _ => raise (ValueError "Unknown string format");
     check_bracketed_netloc := fun _ => None |}.

Definition sample_db : database :=
  {| sources := [ mkSource 1 "News" RSS "https://news.example.com/rss" true (Some "news");
                  mkSource 2 "Broken" RSS "https://broken.example.org/feed" true None;
                  mkSource 3 "Off" RSS "https://off.example.net/feed" false None;
                  mkSource 4 "Down" RSS "https://down.example.net/feed" true None ];
     items := [];
     funding_details := [];
     company_details := [];
     mena_analysis := [];
     ingest_runs := [];
     next_source_id := 5;
     next_item_id := 1;
     next_run_id := 1 |}.

Definition sample_world : world := mkWorld sample_db [].

(** The sample database after a pass over the first source: two items,
    no analysis yet. *)
Definition sample_db_items : database :=
  w_db (snd (ingest_source sample_env 1 sample_world)).


(** The state a turn of the loop ends in, with or without exception. *)
Definition final_state (r : exn * pass_state + pass_state) : pass_state :=
  match r with
  | inl (_, st) => st
  | inr st => st
  end.

(** [db'] differs from [db] at most in the analysis table and in the
    item sequence. *)
Definition same_but_analysis (db db' : database) : Prop :=
  sources db' = sources db
  /\ items db' = items db
  /\ funding_details db' = funding_details db
  /\ company_details db' = company_details db
  /\ ingest_runs db' = ingest_runs db
  /\ next_source_id db' = next_source_id db
  /\ next_run_id db' = next_run_id db.

(** The rows a pass has added to its session: as many detail rows as
    items, no investors in any funding row, every item tied to the
    source and carrying a hash of 64 characters. *)
Definition rows_ok (sid : nat)
  (ni : list Item) (nf : list FundingDetails) (nc : list CompanyDetails) : Prop :=
  List.length nf + List.length nc = List.length ni
  /\ Forall (fun f => fd_investors f = []) nf
  /\ Forall (fun i => item_source_id i = Some sid
                      /\ String.length (item_hash i) = 64) ni.


(** The session of [st'] extends the session of [st] by the rows [ni],
    [nf], [nc], and the counter by the number of items. *)
Definition session_grows (st st' : pass_state)
  (ni : list Item) (nf : list FundingDetails) (nc : list CompanyDetails) : Prop :=
  s_items (ps_session st') = (s_items (ps_session st) ++ ni)%list
  /\ s_funding (ps_session st') = (s_funding (ps_session st) ++ nf)%list
  /\ s_company (ps_session st') = (s_company (ps_session st) ++ nc)%list
  /\ ps_added st' = ps_added st + List.length ni.









(** The item rows a pass sees: the committed ones and its own. *)
Definition visible (st : pass_state) : list Item :=
  (items (w_db (ps_world st)) ++ s_items (ps_session st))%list.




(** The items that have no analysis row. *)
Definition unanalysed (db : database) : list Item :=
  filter (fun i => negb (has_analysis db i)) (items db).

(** Some analysis row is for the item id. *)
Definition analysed_id (db : database) (id : nat) : bool :=
  existsb (fun a => Nat.eqb (ma_item_id a) id) (mena_analysis db).

(** The sample surroundings with the job queue out of reach. *)
Definition sample_env_queue_down : env :=
  mkEnv (openai_api_key sample_env) (openai_model sample_env)
        (llm_reply sample_env) (json_loads sample_env) false
        (feed_entries sample_env) (dateutil_parse sample_env)
        (check_bracketed_netloc sample_env).

(** The rules of the round type without the fifth one. *)
Definition round_patterns_but_fifth : list (regex * (match_obj -> string)) :=
  (firstn 4 round_patterns ++ skipn 5 round_patterns)%list.

(** The labels a round type can be. *)
Definition round_label (r : option string) : Prop :=
  r = None
  \/ In r [Some "seed"; Some "pre_seed"; Some "growth"; Some "bridge"]
  \/ exists a, cls_az a = true /\ r = Some ("series_" ++ String a EmptyString).

(** The part of [urlsplit] up to the authority. *)
Definition authority (chk : string -> option string) (url : string) : result (string * string * string) :=
  let url := remove_chars UrlParse.unsafe_byte (lstrip_by UrlParse.c0_or_space url) in
  let '(scheme, url) := UrlParse.split_scheme url in
  if prefix "//" url then
    let '(netloc, rest) := UrlParse.span_while UrlParse.netloc_char (slice_from url 2) in
    let open := contains "[" netloc in
    let close := contains "]" netloc in
    if (open && negb close) || (close && negb open) then
      raise (ValueError "Invalid IPv6 URL")
    else if open && close then
      match chk netloc with
      | Some msg => raise (ValueError msg)
      | None => ok (scheme, netloc, rest)
      end
    else ok (scheme, netloc, rest)
  else ok (scheme, EmptyString, url).





(** A pattern without capturing group. *)
Fixpoint group_free (r : regex) : bool :=
  match r with
  | Group _ => false
  | Seq a b | Alt a b => (group_free a && group_free b)%bool
  | Opt a => group_free a
  | _ => true
  end.

(** A name as a caller can use it: not empty, and [strip] leaves it as
    it is. *)
Definition trimmed (name : string) : Prop :=
  name <> EmptyString /\ strip name = name.

(** A word of [split]: not empty, no whitespace. *)
Definition is_word (w : string) : Prop :=
  w <> EmptyString /\ all_chars (fun c => negb (isspace c)) w = true.

(** No two items of the table share a hash. *)
Definition unique_hashes (db : database) : Prop :=
  NoDup (map item_hash (items db)).

(** Every item id is below the next value of the item sequence. *)
Definition item_ids_fresh (db : database) : Prop :=
  Forall (fun i => item_id i < next_item_id db) (items db).

(** The analysis jobs for a list of items, in order. *)
Definition analysis_jobs (l : list Item) : list job :=
  map (fun i => JobAnalyzeItem (item_id i)) l.

(** What the pass can see: the committed items and its own. *)
Definition seen (st : pass_state) : list Item :=
  (items (w_db (ps_world st)) ++ s_items (ps_session st))%list.



(** A character other than [?], [#] and [;]. *)
Definition plain_char (a : ascii) : bool :=
  (not_char "?" a && not_char "#" a && not_char ";" a)%bool.

(** A tag, as the cleaning pattern [<[^>]+>] takes it, starts at the
    head of the text; a tag starts somewhere in the text. *)
Definition tag_at (s : string) : bool :=
  match s with
  | String a s' =>
      (Ascii.eqb a "<"
       && match find_gt s' with Some (S _) => true | _ => false end)%bool
  | EmptyString => false
  end.

Fixpoint has_tag (s : string) : bool :=
  match s with
  | EmptyString => false
  | String _ s' => (tag_at s || has_tag s')%bool
  end.

(** The detail rows that go with a list of items: one funding row per
    funding item and one company row per other item, each under the id
    of its item and in the order of the items; a one-liner is a
    non-empty text of at most 200 characters. *)
Definition is_funding (i : Item) : bool :=
  match item_type i with FUNDING => true | COMPANY => false end.

Definition one_liner_ok (c : CompanyDetails) : Prop :=
  match cd_one_liner c with
  | Some t => t <> EmptyString /\ String.length t <= 200
  | None => True
  end.

Definition details_match
  (ni : list Item) (nf : list FundingDetails) (nc : list CompanyDetails) : Prop :=
  map fd_item_id nf = map item_id (filter is_funding ni)
  /\ map cd_item_id nc = map item_id (filter (fun i => negb (is_funding i)) ni)
  /\ Forall one_liner_ok nc.

(* ===================================================================== *)
(** * Facts about the string operations *)
(* ===================================================================== *)

Section StringFacts.

Import PyStr.

Lemma prefix_app (p r : string) : prefix p (p ++ r) = true.
Proof.
  induction p as [|a p IH]; simpl.
  - destruct r; reflexivity.
  - destruct (ascii_dec a a) as [_|n]; [exact IH | now elim n].
Qed.

Lemma prefix_split (p s : string) :
  prefix p s = true -> exists r, s = p ++ r.
Proof.
  revert s; induction p as [|a p IH]; intros s H.
  - exists s; reflexivity.
  - destruct s as [|b s]; simpl in H; [discriminate|].
    destruct (ascii_dec a b) as [->|]; [|discriminate].
    destruct (IH _ H) as [r ->]. exists r; reflexivity.
Qed.

Lemma prefix_iff (p s : string) :
  prefix p s = true <-> exists r, s = p ++ r.
Proof.
  split; [apply prefix_split|]. intros [r ->]. apply prefix_app.
Qed.

(** [sub in s] holds exactly when [s] can be cut around a copy of [sub]. *)
Lemma contains_iff (sub s : string) :
  contains sub s = true <-> exists pre post, s = pre ++ sub ++ post.
Proof.
  induction s as [|a s IH].
  - cbn [contains]. split.
    + intros H. destruct (prefix sub "") eqn:E; [|discriminate H].
      apply prefix_split in E. destruct E as [r E].
      exists "", r. exact E.
    + intros (pre & post & E).
      destruct pre; [|discriminate]. simpl in E.
      destruct sub; [reflexivity|discriminate].
  - cbn [contains]. destruct (prefix sub (String a s)) eqn:E.
    + split; [|reflexivity]. intros _.
      apply prefix_split in E. destruct E as [r E].
      exists "", r. exact E.
    + rewrite IH. split.
      * intros (pre & post & ->). exists (String a pre), post. reflexivity.
      * intros (pre & post & H). destruct pre as [|b pre].
        -- simpl in H. rewrite H, prefix_app in E. discriminate.
        -- simpl in H. injection H as _ ->. now exists pre, post.
Qed.

Lemma lower_app (a b : string) : lower (a ++ b) = lower a ++ lower b.
Proof. induction a; simpl; congruence. Qed.



End StringFacts.

(* ===================================================================== *)
(** * The type classifier *)
(* ===================================================================== *)

Section Classifier.

Import PyStr.







End Classifier.

(* ===================================================================== *)
(** * Company name: the fallback on leading words *)
(* ===================================================================== *)

Section CompanyName.










End CompanyName.

(* ===================================================================== *)
(** * The matcher only reports texts of the pattern *)
(* ===================================================================== *)

Section MatcherSound.

Lemma append_empty_r (s : string) : s ++ "" = s.
Proof. induction s; simpl; congruence. Qed.

Lemma append_assoc' (a b c : string) : (a ++ b) ++ c = a ++ b ++ c.
Proof. induction a; simpl; congruence. Qed.

Lemma length_app (a b : string) :
  String.length (a ++ b) = String.length a + String.length b.
Proof. induction a; simpl; congruence. Qed.

Lemma spans_refl (c : cursor) : spans c c "".
Proof. split; simpl; [reflexivity | lia]. Qed.

Lemma spans_trans (c1 c2 c3 : cursor) (u v : string) :
  spans c1 c2 u -> spans c2 c3 v -> spans c1 c3 (u ++ v).
Proof.
  intros [R1 P1] [R2 P2]. split.
  - now rewrite R1, R2, append_assoc'.
  - rewrite P2, P1, length_app. lia.
Qed.

(** Moving over a known prefix. *)
Lemma advance_app (w : string) :
  forall c r, rest c = w ++ r -> spans c (advance (String.length w) c) w
                                 /\ rest (advance (String.length w) c) = r.
Proof.
  induction w as [|a w IH]; intros c r H.
  - simpl. split; [apply spans_refl | exact H].
  - simpl in *. rewrite H.
    destruct (IH (mkCursor (Some a) (S (pos c)) (w ++ r)) r eq_refl) as [[R P] E].
    simpl in R, P. split; [|exact E]. split.
    + rewrite H. simpl. now rewrite <- R.
    + simpl. rewrite P. lia.
Qed.

(** The first [k] characters of a run. *)
Lemma run_len_split (p : ascii -> bool) (k : nat) :
  forall s, k <= run_len p s ->
  exists w r, s = w ++ r /\ String.length w = k /\ all_chars p w = true.
Proof.
  induction k as [|k IH]; intros s H.
  - exists "", s. auto.
  - destruct s as [|a s]; simpl in H; [lia|].
    destruct (p a) eqn:Pa; [|lia].
    destruct (IH s) as (w & r & -> & L & A); [lia|].
    exists (String a w), r. simpl. rewrite Pa, L, A. auto.
Qed.

Lemma advance_run (p : ascii -> bool) (c : cursor) (k : nat) :
  k <= run_len p (rest c) ->
  exists w, spans c (advance k c) w /\ String.length w = k /\ all_chars p w = true.
Proof.
  intros H. destruct (run_len_split p k _ H) as (w & r & E & L & A).
  exists w. rewrite <- L at 1. split; [|auto].
  exact (proj1 (advance_app w c r E)).
Qed.

Lemma length_pos_nonempty (w : string) : 1 <= String.length w -> w <> "".
Proof. destruct w; simpl; [lia | discriminate]. Qed.

(** Every outcome of [exec] ends after a text of the pattern. *)
Lemma exec_sound (r : regex) :
  forall c g o, In o (exec r c g) -> exists w, spans c (fst o) w /\ lang r w.
Proof.
  induction r as [s|p|a IHa b IHb|a IHa b IHb|a IHa|p|p|p|a IHa| |];
    intros c g o H; cbn [exec] in H.
  - destruct (prefix s (rest c)) eqn:E; [|contradiction].
    destruct H as [<-|[]]. apply prefix_split in E. destruct E as [r E].
    exists s. split; [|reflexivity]. exact (proj1 (advance_app s c r E)).
  - destruct (rest c) as [|a r] eqn:E; [contradiction|].
    destruct (p a) eqn:Pa; [|contradiction].
    destruct H as [<-|[]]. exists (String a ""). split.
    + exact (proj1 (advance_app (String a "") c r E)).
    + now exists a.
  - apply in_flat_map in H. destruct H as (o1 & H1 & H2).
    destruct (IHa _ _ _ H1) as (u & Su & Lu).
    destruct (IHb _ _ _ H2) as (v & Sv & Lv).
    exists (u ++ v). split; [eapply spans_trans; eauto|].
    now exists u, v.
  - apply in_app_or in H. destruct H as [H|H].
    + destruct (IHa _ _ _ H) as (w & S & L). exists w; simpl; auto.
    + destruct (IHb _ _ _ H) as (w & S & L). exists w; simpl; auto.
  - apply in_app_or in H. destruct H as [H|[<-|[]]].
    + destruct (IHa _ _ _ H) as (w & S & L). exists w; simpl; auto.
    + exists "". split; [apply spans_refl | now right].
  - apply in_map_iff in H. destruct H as (k & <- & H).
    apply in_rev, in_seq in H.
    destruct (advance_run p c k) as (w & S & _ & A); [lia|].
    exists w. auto.
  - apply in_map_iff in H. destruct H as (k & <- & H).
    apply in_rev, in_seq in H.
    destruct (advance_run p c k) as (w & S & L & A); [lia|].
    exists w. split; [exact S|]. split; [apply length_pos_nonempty; lia | exact A].
  - apply in_map_iff in H. destruct H as (k & <- & H).
    apply in_seq in H.
    destruct (advance_run p c k) as (w & S & L & A); [lia|].
    exists w. split; [exact S|]. split; [apply length_pos_nonempty; lia | exact A].
  - apply in_map_iff in H. destruct H as (o1 & <- & H).
    destruct (IHa _ _ _ H) as (w & S & L). exists w. auto.
  - destruct (Nat.eqb (pos c) 0); [|contradiction].
    destruct H as [<-|[]]. exists "". split; [apply spans_refl | reflexivity].
  - destruct (xorb (word_before c) (word_after c)); [|contradiction].
    destruct H as [<-|[]]. exists "". split; [apply spans_refl | reflexivity].
Qed.

Lemma match_at_sound (r : regex) (text : string) (c : cursor) (m : match_obj) :
  position_of text c -> match_at r c = Some m -> match_in r text m.
Proof.
  intros (pre & T & P) H. unfold match_at in H.
  destruct (exec r c None) as [|o os] eqn:E; [discriminate|].
  injection H as <-.
  destruct (exec_sound r c None o) as (w & [R Q] & L); [rewrite E; now left|].
  exists pre, w, (rest (fst o)). simpl.
  rewrite T, R, Q, P. auto.
Qed.

Lemma position_of_start (text : string) : position_of text (start_cursor text).
Proof. now exists "". Qed.

Lemma position_of_advance (text : string) (c : cursor) (a : ascii) (r : string) :
  position_of text c -> rest c = String a r -> position_of text (advance 1 c).
Proof.
  intros (pre & T & P) E. exists (pre ++ String a "").
  simpl. rewrite E. simpl. split.
  - rewrite T, E, append_assoc'. reflexivity.
  - rewrite length_app, P. simpl. lia.
Qed.

Lemma search_from_sound (r : regex) (text : string) (n : nat) :
  forall c m, position_of text c -> search_from r n c = Some m ->
              match_in r text m.
Proof.
  induction n as [|n IH]; intros c m P H; simpl in H.
  - destruct (match_at r c) eqn:E; [|discriminate].
    injection H as <-. eapply match_at_sound; eauto.
  - destruct (match_at r c) eqn:E.
    + injection H as <-. eapply match_at_sound; eauto.
    + destruct (rest c) as [|a s] eqn:R; [discriminate|].
      assert (A : advance 1 c = mkCursor (Some a) (S (pos c)) s)
        by (simpl; now rewrite R).
      rewrite <- A in H.
      apply (IH (advance 1 c) m); [|exact H].
      eapply position_of_advance; eauto.
Qed.

(** [re.search] returns a match that lies in the subject and covers a
    text of the pattern. *)
Lemma re_search_sound (r : regex) (text : string) (m : match_obj) :
  re_search r text = Some m -> match_in r text m.
Proof. apply search_from_sound, position_of_start. Qed.

End MatcherSound.

(* ===================================================================== *)
(** * Funding facts: round type and amount *)
(* ===================================================================== *)

Section FundingFacts.

Lemma substring_skip (pre s : string) (n : nat) :
  substring (String.length pre) n (pre ++ s) = substring 0 n s.
Proof. induction pre; simpl; auto. Qed.

Lemma substring_app_take (w post : string) (k : nat) :
  substring 0 (String.length w + k) (w ++ post) = w ++ substring 0 k post.
Proof. induction w; simpl; [reflexivity | congruence]. Qed.

(** The slice from the start of a match to [k] characters past its end. *)
Lemma slice_match_window (pre w post : string) (k : nat) :
  slice (pre ++ w ++ post) (String.length pre)
        (String.length pre + String.length w + k)
  = w ++ substring 0 k post.
Proof.
  unfold slice.
  replace (String.length pre + String.length w + k - String.length pre)
    with (String.length w + k) by lia.
  now rewrite substring_skip, substring_app_take.
Qed.

(** A text of the billion pattern has the letter b in it. *)
Lemma billion_lang_has_b (w : string) :
  lang amount_pattern_billion w -> exists x y, w = x ++ "b" ++ y.
Proof.
  intros (u1 & v1 & -> & _ & u2 & v2 & -> & _ & u3 & v3 & -> & _ & H).
  destruct H as [->|(x & y & -> & -> & ->)].
  - exists (u1 ++ u2 ++ u3), "illion". now rewrite !append_assoc'.
  - exists (u1 ++ u2 ++ u3), "". now rewrite !append_assoc'.
Qed.

(** A match of the billion pattern always passes the billion test. *)
Lemma billion_match_test (text : string) (m : match_obj) :
  re_search amount_pattern_billion text = Some m -> billion_test text m = true.
Proof.
  intros H. apply re_search_sound in H.
  destruct H as (pre & w & post & -> & S & E & L).
  apply billion_lang_has_b in L. destruct L as (x & y & ->).
  unfold billion_test. apply orb_true_iff. right.
  rewrite S, E, slice_match_window. apply contains_iff.
  exists (lower x), (lower (y ++ substring 0 3 post)).
  now rewrite !append_assoc', !lower_app.
Qed.

Lemma extract_amount_none (ps : list regex) (text : string) :
  extract_amount ps text = None <-> (forall p, In p ps -> re_search p text = None).
Proof.
  induction ps as [|p ps IH]; simpl.
  - split; [intros _ p [] | reflexivity].
  - destruct (re_search p text) eqn:E.
    + split; [discriminate|]. intros H. rewrite (H p) in E; [discriminate | now left].
    + rewrite IH. split.
      * intros H q [<-|Hq]; auto.
      * intros H q Hq. apply H. now right.
Qed.

(** C3 (as the code has it). The amount comes from the first pattern, in
    the order [$N million|m], [$N billion|b], [N million|m dollars|$],
    that occurs in the lower-cased text, at its leftmost match, and from
    that one match only. With no pattern occurring it is null, and only
    then. A match of the million pattern or of the third pattern gives
    [N * 1,000,000] when the billion test finds no b in the match and the
    3 characters after it (nor "billion" within 10 characters after it);
    a match of the billion pattern gives [N * 1000 * 1,000,000]. The
    sample "$5.5M funding round" gives 5,500,000. *)
Theorem extract_amount_spec :
  (forall title summary,
      let text := lower (title ++ " " ++ summary) in
      let amount := amount_usd (extract_funding_details title summary) in
      (amount = None <-> forall p, In p amount_patterns -> re_search p text = None)
      /\ (forall m,
             re_search amount_pattern_million text = Some m ->
             billion_test text m = false ->
             amount = Some (PyFloat.mul (PyFloat.of_decimal (group1 m))
                                        (PyFloat.of_Z 1000000)))
      /\ (forall m,
             re_search amount_pattern_million text = None ->
             re_search amount_pattern_billion text = Some m ->
             amount = Some (PyFloat.mul
                              (PyFloat.mul (PyFloat.of_decimal (group1 m))
                                           (PyFloat.of_Z 1000))
                              (PyFloat.of_Z 1000000)))
      /\ (forall m,
             re_search amount_pattern_million text = None ->
             re_search amount_pattern_billion text = None ->
             re_search amount_pattern_dollars text = Some m ->
             billion_test text m = false ->
             amount = Some (PyFloat.mul (PyFloat.of_decimal (group1 m))
                                        (PyFloat.of_Z 1000000))))
  /\ amount_usd (extract_funding_details "$5.5M funding round" "")
     = Some (PyFloat.of_Z 5500000).
Proof.
  split; [|reflexivity].
  intros title summary text amount. subst amount. cbn [extract_funding_details amount_usd].
  fold text. split; [apply extract_amount_none|].
  unfold amount_patterns. cbn [extract_amount]. repeat split.
  - intros m H T. rewrite H. unfold amount_of_match. now rewrite T.
  - intros m H1 H2. rewrite H1, H2. unfold amount_of_match.
    now rewrite (billion_match_test _ _ H2).
  - intros m H1 H2 H3 T. rewrite H1, H2, H3. unfold amount_of_match. now rewrite T.
Qed.

(** The four cases of the amount at sample texts. *)
Lemma extract_amount_spec_witness :
  (re_search amount_pattern_million (lower ("Company raises $10 million" ++ " " ++ ""))
     = Some (mkMatch 15 26 (Some "10"))
   /\ billion_test (lower ("Company raises $10 million" ++ " " ++ ""))
                   (mkMatch 15 26 (Some "10")) = false
   /\ amount_usd (extract_funding_details "Company raises $10 million" "")
      = Some (PyFloat.of_Z 10000000))
  /\ (re_search amount_pattern_million (lower ("Valued at $3b" ++ " " ++ "")) = None
      /\ re_search amount_pattern_billion (lower ("Valued at $3b" ++ " " ++ ""))
         = Some (mkMatch 10 13 (Some "3"))
      /\ amount_usd (extract_funding_details "Valued at $3b" "")
         = Some (PyFloat.of_Z 3000000000))
  /\ ((forall p, In p amount_patterns ->
                 re_search p (lower ("no signal here" ++ " " ++ "")) = None)
      /\ amount_usd (extract_funding_details "no signal here" "") = None).
Proof.
  pose proof (proj1 extract_amount_spec) as T.
  split; [|split].
  - assert (H : re_search amount_pattern_million
                  (lower ("Company raises $10 million" ++ " " ++ ""))
                = Some (mkMatch 15 26 (Some "10"))) by reflexivity.
    split; [exact H|]. split; [reflexivity|].
    exact (proj1 (proj2 (T "Company raises $10 million" "")) _ H eq_refl).
  - assert (H1 : re_search amount_pattern_million
                   (lower ("Valued at $3b" ++ " " ++ "")) = None) by reflexivity.
    assert (H2 : re_search amount_pattern_billion
                   (lower ("Valued at $3b" ++ " " ++ ""))
                 = Some (mkMatch 10 13 (Some "3"))) by reflexivity.
    split; [exact H1|]. split; [exact H2|].
    exact (proj1 (proj2 (proj2 (T "Valued at $3b" ""))) _ H1 H2).
  - assert (H : forall p, In p amount_patterns ->
                  re_search p (lower ("no signal here" ++ " " ++ "")) = None).
    { intros p [<-|[<-|[<-|[]]]]; reflexivity. }
    split; [exact H|].
    exact (proj2 (proj1 (T "no signal here" "")) H).
Defined.

(** C3 as stated fails: the text below has no amount of the shape
    [$N million|m] or [$N billion|b], yet the third pattern, which asks
    for no dollar sign before the number, gives it an amount. *)
Lemma extract_amount_without_dollar_pattern :
  re_search amount_pattern_million
    (lower ("Startup raised 10 million dollars" ++ " " ++ "")) = None
  /\ re_search amount_pattern_billion
       (lower ("Startup raised 10 million dollars" ++ " " ++ "")) = None
  /\ contains "$" (lower ("Startup raised 10 million dollars" ++ " " ++ "")) = false
  /\ amount_usd (extract_funding_details "Startup raised 10 million dollars" "")
     = Some (PyFloat.of_Z 10000000)
  /\ amount_usd (extract_funding_details "Startup raised 10 million dollars" "")
     <> None.
Proof. repeat split; try reflexivity. discriminate. Qed.

(** The window of the billion test reaches past the matched amount: a
    million-qualified amount followed by a word with a b in it is
    multiplied by 1000. *)
Lemma extract_amount_million_then_b :
  re_search amount_pattern_million (lower ("$10m boost" ++ " " ++ ""))
    = Some (mkMatch 0 4 (Some "10"))
  /\ amount_usd (extract_funding_details "$10m boost" "")
     = Some (PyFloat.of_Z 10000000000).
Proof. split; reflexivity. Qed.

(** C2. The text "Startup closes pre-seed round" contains "pre-seed" and
    no "series <letter>", and its round type is "seed": the rule
    [seed\s+round] stands before the rule [pre-seed]. *)
Theorem extract_round_pre_seed_round :
  contains "pre-seed" (lower ("Startup closes pre-seed round" ++ " " ++ "")) = true
  /\ re_search (Seq (Lit "series") (Seq (Plus isspace) (Group (Cls cls_az))))
       (lower ("Startup closes pre-seed round" ++ " " ++ "")) = None
  /\ round_type (extract_funding_details "Startup closes pre-seed round" "")
     = Some "seed"
  /\ round_type (extract_funding_details "Startup closes pre-seed round" "")
     <> Some "pre_seed".
Proof. repeat split; try reflexivity. discriminate. Qed.

(** The rules of the round type at the sample texts. *)
Lemma extract_round_samples :
  round_type (extract_funding_details "Company closes Series B round" "") = Some "series_b"
  /\ round_type (extract_funding_details "Company raises Series A" "") = Some "series_a"
  /\ round_type (extract_funding_details "Startup secures seed funding" "") = Some "seed"
  /\ round_type (extract_funding_details "Startup secures pre-seed funding" "") = Some "pre_seed"
  /\ round_type (extract_funding_details "Fintech closes growth round" "") = Some "growth"
  /\ round_type (extract_funding_details "Fintech closes bridge  round" "") = Some "bridge"
  /\ round_type (extract_funding_details "Company news update" "") = None.
Proof. repeat split; reflexivity. Qed.

End FundingFacts.

(* ===================================================================== *)
(** * The deduplication hash *)
(* ===================================================================== *)

Section HashFacts.

Variable chk : string -> option string.

Lemma all_chars_app (p : ascii -> bool) (a b : string) :
  all_chars p (a ++ b) = (all_chars p a && all_chars p b)%bool.
Proof. induction a; simpl; [reflexivity|]. now rewrite IHa, andb_assoc. Qed.

Lemma hex_char_is_hex (n : Z) : is_hex_digit (Sha256.hex_char n) = true.
Proof.
  unfold Sha256.hex_char.
  destruct (Z.land n 15) as [|p|p]; try reflexivity.
  do 5 (try reflexivity; try destruct p as [p|p|]).
Qed.

Lemma hex8_shape (w : Z) :
  String.length (Sha256.hex8 w) = 8 /\ all_chars is_hex_digit (Sha256.hex8 w) = true.
Proof.
  split; [reflexivity|]. unfold Sha256.hex8. cbn [all_chars].
  now rewrite !hex_char_is_hex.
Qed.

Lemma hexdigest_shape (s : Sha256.state) :
  String.length (Sha256.hexdigest s) = 64
  /\ all_chars is_hex_digit (Sha256.hexdigest s) = true.
Proof.
  unfold Sha256.hexdigest. split.
  - rewrite !length_app. now rewrite !(proj1 (hex8_shape _)).
  - rewrite !all_chars_app. now rewrite !(proj2 (hex8_shape _)).
Qed.

(** The hash is returned exactly when [urlparse] accepts the URL, and is
    then 64 lower-case hexadecimal digits: the SHA-256 of the UTF-8 form
    of the normalised content. When [urlparse] raises, the hash function
    raises the same exception. *)
Theorem create_item_hash_shape
  (url title : string) (published_at : option DateTime.datetime) :
  match UrlParse.urlparse chk url with
  | inr parsed =>
      exists h,
        create_item_hash chk url title published_at = inr h
        /\ String.length h = 64
        /\ all_chars is_hex_digit h = true
        /\ h = Sha256.hexdigest
                 (Sha256.sha256 (encode_utf8 (hash_content parsed title published_at)))
  | inl e => create_item_hash chk url title published_at = inl e
  end.
Proof.
  unfold create_item_hash. destruct (UrlParse.urlparse chk url) as [e|parsed]; simpl.
  - reflexivity.
  - eexists. split; [reflexivity|].
    destruct (hexdigest_shape
                (Sha256.sha256 (encode_utf8 (hash_content parsed title published_at))))
      as [L H].
    auto.
Qed.

(** ** URLs without square brackets are always hashed *)

Lemma prefix_empty (s : string) : prefix "" s = true.
Proof. destruct s; reflexivity. Qed.

Lemma contains_char_false (c : ascii) (s : string) :
  all_chars (not_char c) s = true -> contains (String c "") s = false.
Proof.
  induction s as [|a s IH]; [reflexivity|].
  cbn [all_chars contains prefix]. unfold not_char at 1.
  intros H. apply andb_true_iff in H. destruct H as [Ha Hs].
  destruct (ascii_dec c a) as [->|_].
  - rewrite Ascii.eqb_refl in Ha. discriminate.
  - auto.
Qed.

Lemma contains_char_true (c : ascii) (s : string) :
  contains (String c "") s = true -> all_chars (not_char c) s = false.
Proof.
  intros H. destruct (all_chars (not_char c) s) eqn:E; [|reflexivity].
  apply contains_char_false in E. congruence.
Qed.

Lemma all_chars_weaken (p q : ascii -> bool) (s : string) :
  (forall a, p a = true -> q a = true) ->
  all_chars p s = true -> all_chars q s = true.
Proof.
  intros W. induction s as [|a s IH]; simpl; [reflexivity|].
  intros H. apply andb_true_iff in H. destruct H as [Ha Hs].
  now rewrite (W _ Ha), IH.
Qed.

Lemma all_chars_substring (p : ascii -> bool) (s : string) :
  forall n m, all_chars p s = true -> all_chars p (substring n m s) = true.
Proof.
  induction s as [|a s IH]; intros n m H.
  - destruct n, m; reflexivity.
  - simpl in H. apply andb_true_iff in H. destruct H as [Ha Hs].
    destruct n, m; simpl; auto. now rewrite Ha, IH.
Qed.

Lemma all_chars_lstrip (p q : ascii -> bool) (s : string) :
  all_chars p s = true -> all_chars p (lstrip_by q s) = true.
Proof.
  induction s as [|a s IH]; simpl; [reflexivity|]. intros H.
  destruct (q a); [|exact H].
  apply andb_true_iff in H. now apply IH.
Qed.

Lemma all_chars_remove (p q : ascii -> bool) (s : string) :
  all_chars p s = true -> all_chars p (remove_chars q s) = true.
Proof.
  induction s as [|a s IH]; simpl; [reflexivity|]. intros H.
  apply andb_true_iff in H. destruct H as [Ha Hs].
  destruct (q a); simpl; [|rewrite Ha]; auto.
Qed.

Lemma all_chars_span (p q : ascii -> bool) (s : string) :
  all_chars p s = true ->
  all_chars p (fst (UrlParse.span_while q s)) = true
  /\ all_chars p (snd (UrlParse.span_while q s)) = true.
Proof.
  induction s as [|a s IH]; simpl; [auto|]. intros H.
  pose proof H as H'.
  apply andb_true_iff in H. destruct H as [Ha Hs].
  destruct (q a); [|simpl; auto].
  destruct (UrlParse.span_while q s) as [l r]. simpl in *.
  rewrite Ha. destruct (IH Hs). auto.
Qed.

Lemma all_chars_split_scheme (p : ascii -> bool) (s : string) :
  all_chars p s = true -> all_chars p (snd (UrlParse.split_scheme s)) = true.
Proof.
  intros H. unfold UrlParse.split_scheme.
  destruct (find ":" s) as [[|i]|]; try exact H.
  destruct s as [|c0 s']; [exact H|].
  destruct (UrlParse.ascii_alpha c0 && _)%bool; [|exact H].
  apply all_chars_substring, H.
Qed.



Lemma remove_chars_app (p : ascii -> bool) (a b : string) :
  remove_chars p (a ++ b) = remove_chars p a ++ remove_chars p b.
Proof. induction a as [|c a IH]; simpl; [reflexivity|]. destruct (p c); simpl; congruence. Qed.

Lemma remove_chars_id (p : ascii -> bool) (s : string) :
  all_chars (fun a => negb (p a)) s = true -> remove_chars p s = s.
Proof.
  induction s as [|c s IH]; simpl; [reflexivity|]. intros H.
  apply andb_true_iff in H. destruct H as [Hc Hs].
  destruct (p c); [discriminate|]. now rewrite IH.
Qed.

Lemma span_while_app (q : ascii -> bool) (host tail : string) :
  all_chars q host = true ->
  (tail = "" \/ exists c t, tail = String c t /\ q c = false) ->
  UrlParse.span_while q (host ++ tail) = (host, tail).
Proof.
  intros H T. induction host as [|a host IH]; simpl in *.
  - destruct T as [->|(c & t & -> & Hc)]; simpl; [reflexivity|]. now rewrite Hc.
  - apply andb_true_iff in H. destruct H as [Ha Hs]. now rewrite Ha, IH.
Qed.

Lemma substring_full (s : string) : substring 0 (String.length s) s = s.
Proof. induction s; simpl; congruence. Qed.

Lemma split_scheme_https (y : string) :
  UrlParse.split_scheme ("https://" ++ y) = ("https", "//" ++ y).
Proof. unfold UrlParse.split_scheme, slice_from, slice_to. simpl. now rewrite substring_full. Qed.

Lemma split_scheme_http (y : string) :
  UrlParse.split_scheme ("http://" ++ y) = ("http", "//" ++ y).
Proof. unfold UrlParse.split_scheme, slice_from, slice_to. simpl. now rewrite substring_full. Qed.

Lemma split_scheme_none (y : string) :
  UrlParse.split_scheme ("//" ++ y) = ("", "//" ++ y).
Proof.
  unfold UrlParse.split_scheme.
  destruct (find ":" ("//" ++ y)) as [[|i]|]; reflexivity.
Qed.

Lemma host_char_facts (host : string) :
  all_chars host_char host = true ->
  all_chars UrlParse.netloc_char host = true
  /\ all_chars (fun a => negb (UrlParse.unsafe_byte a)) host = true.
Proof.
  intros H. split; (eapply all_chars_weaken; [|exact H]);
    intros a Ha; apply andb_true_iff in Ha; tauto.
Qed.

Lemma tail_after_host (tail : string) :
  empty_or_starts "/" tail ->
  remove_chars UrlParse.unsafe_byte tail = ""
  \/ exists c t, remove_chars UrlParse.unsafe_byte tail = String c t
                 /\ UrlParse.netloc_char c = false.
Proof.
  intros [->|[t ->]]; [now left|]. right. exists "/"%char, (remove_chars UrlParse.unsafe_byte t).
  split; reflexivity.
Qed.

(** ** An unmatched square bracket in the authority *)

(** The authority step of [urlsplit] on [//host tail]. *)
Lemma authority_unmatched (sch host tail : string) :
  all_chars host_char host = true ->
  xorb (contains "[" host) (contains "]" host) = true ->
  empty_or_starts "/" tail ->
  forall pre, UrlParse.split_scheme (pre ++ host ++ remove_chars UrlParse.unsafe_byte tail)
              = (sch, "//" ++ host ++ remove_chars UrlParse.unsafe_byte tail) ->
  lstrip_by UrlParse.c0_or_space (pre ++ host ++ tail) = pre ++ host ++ tail ->
  remove_chars UrlParse.unsafe_byte pre = pre ->
  UrlParse.urlsplit chk (pre ++ host ++ tail) = inl (ValueError "Invalid IPv6 URL").
Proof.
  intros Hh Hx Ht pre Es El Er.
  destruct (host_char_facts host Hh) as [Hn Hu].
  unfold UrlParse.urlsplit. rewrite El, !remove_chars_app, Er, (remove_chars_id _ host Hu), Es.
  change (prefix "//" ("//" ++ host ++ remove_chars UrlParse.unsafe_byte tail)) with
    (prefix "" (host ++ remove_chars UrlParse.unsafe_byte tail)).
  rewrite prefix_empty.
  replace (slice_from ("//" ++ host ++ remove_chars UrlParse.unsafe_byte tail) 2)
    with (host ++ remove_chars UrlParse.unsafe_byte tail)
    by (unfold slice_from; simpl; rewrite ?Nat.sub_0_r; now rewrite substring_full).
  rewrite (span_while_app _ _ _ Hn (tail_after_host _ Ht)).
  destruct (contains "[" host), (contains "]" host); try discriminate; reflexivity.
Qed.

(** A URL with the scheme http or https, or none, whose authority has
    one kind of square bracket without the other makes the hash
    function raise [ValueError]: no hash is produced, whatever the title
    and the timestamp. *)
Theorem create_item_hash_unmatched_bracket
  (pre host tail title : string) (published_at : option DateTime.datetime) :
  In pre ["http://"; "https://"; "//"] ->
  all_chars host_char host = true ->
  xorb (contains "[" host) (contains "]" host) = true ->
  empty_or_starts "/" tail ->
  create_item_hash chk (pre ++ host ++ tail) title published_at
  = inl (ValueError "Invalid IPv6 URL").
Proof.
  intros Hp Hh Hx Ht. unfold create_item_hash, UrlParse.urlparse.
  assert (E : UrlParse.urlsplit chk (pre ++ host ++ tail)
              = inl (ValueError "Invalid IPv6 URL")).
  { destruct Hp as [<-|[<-|[<-|[]]]].
    - eapply authority_unmatched; eauto using split_scheme_http.
    - eapply authority_unmatched; eauto using split_scheme_https.
    - eapply authority_unmatched; eauto using split_scheme_none. }
  now rewrite E.
Qed.

End HashFacts.


Lemma create_item_hash_unmatched_bracket_witness :
  In "http://" ["http://"; "https://"; "//"]
  /\ all_chars host_char "[2001:db8::1" = true
  /\ xorb (contains "[" "[2001:db8::1") (contains "]" "[2001:db8::1") = true
  /\ empty_or_starts "/" "/feed"
  /\ create_item_hash (fun _ => None) ("http://" ++ "[2001:db8::1" ++ "/feed")
                      "Title" None
     = inl (ValueError "Invalid IPv6 URL").
Proof.
  assert (H1 : In "http://" ["http://"; "https://"; "//"]) by (left; reflexivity).
  assert (H2 : all_chars host_char "[2001:db8::1" = true) by (vm_compute; reflexivity).
  assert (H3 : xorb (contains "[" "[2001:db8::1") (contains "]" "[2001:db8::1") = true)
    by (vm_compute; reflexivity).
  assert (H4 : empty_or_starts "/" "/feed") by (right; exists "feed"; reflexivity).
  repeat (split; [assumption|]).
  exact (create_item_hash_unmatched_bracket (fun _ => None) _ _ _ "Title" None H1 H2 H3 H4).
Defined.

(* ===================================================================== *)
(** * The market-fit analyzer *)
(* ===================================================================== *)

Section Analyzer.

Lemma dict_get_set_same {A} (key : string) (v : A) (d : list (string * A)) :
  dict_get key (dict_set key v d) = Some v.
Proof.
  induction d as [|[k w] d IH]; simpl.
  - now rewrite String.eqb_refl.
  - destruct (String.eqb k key) eqn:E; simpl; now rewrite E.
Qed.

Lemma dict_get_set_other {A} (key key' : string) (v : A) (d : list (string * A)) :
  key <> key' -> dict_get key (dict_set key' v d) = dict_get key d.
Proof.
  intros N. induction d as [|[k w] d IH]; simpl.
  - destruct (String.eqb_spec key' key); [congruence | reflexivity].
  - destruct (String.eqb_spec k key') as [->|N'].
    + simpl. destruct (String.eqb_spec key' key); [congruence | reflexivity].
    + simpl. destruct (String.eqb k key); [reflexivity | exact IH].
Qed.

(** The loop over the keys: each key ends with the clamped integer of
    what was sent under it, or 10 when nothing was, and every other key
    of the rubric keeps its value. *)
Lemma sanitize_rubric_spec (keys : list string) :
  NoDup keys ->
  forall sent got,
    sanitize_rubric keys sent = inr got ->
    (forall key, In key keys -> sanitized_entry sent got key)
    /\ (forall key, ~ In key keys -> dict_get key got = dict_get key sent).
Proof.
  induction 1 as [|k keys Hk _ IH]; intros sent got H; simpl in H.
  - injection H as <-. split; [intros key []|reflexivity].
  - destruct (dict_get k sent) as [v|] eqn:G.
    + destruct (PyInt.of_json v) as [e|n] eqn:I; simpl in H; [discriminate|].
      destruct (IH _ _ H) as [A B]. split.
      * intros key [<-|Hin].
        -- unfold sanitized_entry. rewrite G. exists n. split; [exact I|].
           rewrite (B k Hk). apply dict_get_set_same.
        -- assert (key <> k) by congruence.
           specialize (A key Hin). unfold sanitized_entry in *.
           now rewrite dict_get_set_other in A.
      * intros key Hn. rewrite B by (simpl in Hn; tauto).
        apply dict_get_set_other. simpl in Hn. intuition congruence.
    + destruct (IH _ _ H) as [A B]. split.
      * intros key [<-|Hin].
        -- unfold sanitized_entry. rewrite G.
           rewrite (B k Hk). apply dict_get_set_same.
        -- assert (key <> k) by congruence.
           specialize (A key Hin). unfold sanitized_entry in *.
           now rewrite dict_get_set_other in A.
      * intros key Hn. rewrite B by (simpl in Hn; tauto).
        apply dict_get_set_other. simpl in Hn. intuition congruence.
Qed.

Lemma rubric_keys_nodup : NoDup rubric_keys.
Proof.
  unfold rubric_keys.
  repeat (constructor; [simpl; intuition discriminate|]). constructor.
Qed.

Lemma sanitized_entry_ok (sent got : list (string * json)) (key : string) :
  sanitized_entry sent got key -> sub_score_ok got key.
Proof.
  unfold sanitized_entry, sub_score_ok, clamp.
  destruct (dict_get key sent) as [v|].
  - intros (n & _ & H). eexists. split; [exact H | lia].
  - intros H. eexists. split; [exact H | lia].
Qed.

(** A reply that passes the sanitising step: the score is the integer
    under "fit_score" (50 when missing) clamped to 0..100; each of the
    five sub-scores is the integer sent under its key clamped to 0..20,
    or 10 when the reply had no such key; keys the model added to the
    rubric stay as sent. The score is not recomputed from the
    sub-scores. *)
Theorem sanitize_spec (result : list (string * json)) (r : analysis_result) :
  sanitize (JObj result) = inr r ->
  (exists n,
      PyInt.of_json (match dict_get "fit_score" result with
                     | Some v => v
                     | None => JInt 50
                     end) = inr n
      /\ fit_score r = clamp 0 100 n)
  /\ Forall (sanitized_entry (sent_rubric result) (rubric r)) rubric_keys
  /\ (forall key, ~ In key rubric_keys ->
                  dict_get key (rubric r) = dict_get key (sent_rubric result)).
Proof.
  intros H. unfold sanitize in H.
  destruct (PyInt.of_json _) as [e|n] eqn:I; cbn [bind] in H; [discriminate|].
  destruct (summary_slice _) as [e|s]; cbn [bind] in H; [discriminate|].
  unfold sent_rubric.
  destruct (dict_get "rubric" result) as [[| | | | | |sent]|] eqn:G;
    try discriminate.
  - destruct (sanitize_rubric rubric_keys sent) as [e|got] eqn:R; cbn [bind] in H;
      [discriminate|].
    injection H as <-. cbn [fit_score rubric].
    destruct (sanitize_rubric_spec _ rubric_keys_nodup _ _ R) as [A B].
    split; [eauto|]. split; [apply Forall_forall; auto | auto].
  - destruct (sanitize_rubric rubric_keys []) as [e|got] eqn:R; cbn [bind] in H;
      [discriminate|].
    injection H as <-. cbn [fit_score rubric].
    destruct (sanitize_rubric_spec _ rubric_keys_nodup _ _ R) as [A B].
    split; [eauto|]. split; [apply Forall_forall; auto | auto].
Qed.

Lemma stub_in_range :
  (0 <= fit_score get_stub_analysis <= 100)%Z
  /\ Forall (sub_score_ok (rubric get_stub_analysis)) rubric_keys.
Proof.
  split; [simpl; lia|].
  repeat constructor; (eexists; split; [reflexivity | lia]).
Qed.

(** Whatever the model replies and whether or not a key is configured,
    the analysis has a score between 0 and 100 and, under each of the
    five rubric keys, an integer between 0 and 20. *)
Theorem run_llm_analysis_in_range (e : env) (item : Item) :
  (0 <= fit_score (run_llm_analysis e item) <= 100)%Z
  /\ Forall (sub_score_ok (rubric (run_llm_analysis e item))) rubric_keys.
Proof.
  unfold run_llm_analysis.
  destruct (String.eqb (openai_api_key e) ""); [apply stub_in_range|].
  destruct (llm_reply e item) as [x|reply]; simpl; [apply stub_in_range|].
  destruct (json_loads e (extract_json_text reply)) as [x|parsed]; simpl;
    [apply stub_in_range|].
  destruct (sanitize parsed) as [x|r] eqn:S; [apply stub_in_range|].
  destruct parsed; try discriminate.
  destruct (sanitize_spec _ _ S) as ((n & _ & F) & R & _).
  split; [rewrite F; unfold clamp; lia|].
  eapply Forall_impl; [|exact R]. intros key. apply sanitized_entry_ok.
Qed.

(** ** One analysis per item *)

Lemma find_app_some {A} (p : A -> bool) (l l' : list A) (x : A) :
  List.find p l = Some x -> List.find p (l ++ l') = Some x.
Proof.
  induction l as [|a l IH]; simpl; [discriminate|].
  destruct (p a); auto.
Qed.

Lemma find_app_none {A} (p : A -> bool) (l l' : list A) :
  List.find p l = None -> List.find p (l ++ l') = List.find p l'.
Proof.
  induction l as [|a l IH]; simpl; [reflexivity|].
  destruct (p a); [discriminate | auto].
Qed.

Lemma find_none_existsb {A} (p : A -> bool) (l : list A) :
  List.find p l = None <-> existsb p l = false.
Proof.
  induction l as [|a l IH]; simpl; [tauto|].
  destruct (p a); simpl; [split; discriminate | exact IH].
Qed.

(** What [analyze_item] does to the database: nothing, or one row added
    at the end of the analysis table, for the item asked for. *)
Lemma analyze_item_effect (e : env) (id : nat) (db : database) :
  let '(o, db') := analyze_item e id db in
  (db' = db /\ (forall s, o <> AnalyzeSuccess s))
  \/ (exists a s,
        o = AnalyzeSuccess s
        /\ ma_item_id a = id
        /\ List.find (fun a => Nat.eqb (ma_item_id a) id) (mena_analysis db) = None
        /\ (exists item, List.find (fun i => Nat.eqb (item_id i) id) (items db) = Some item)
        /\ db' = set_mena_analysis (mena_analysis db ++ [a]) db).
Proof.
  unfold analyze_item, first_where.
  destruct (List.find _ (items db)) as [item|] eqn:I.
  - destruct (List.find _ (mena_analysis db)) as [a|] eqn:A.
    + left. split; [reflexivity | discriminate].
    + right. eexists. eexists. repeat split; eauto.
  - left. split; [reflexivity | discriminate].
Qed.

(** A second call for the same item, under any configuration and any
    model reply, leaves the database as the first call left it and does
    not report success: it is skipped when the item exists, and reports
    the missing item otherwise. *)
Theorem analyze_item_twice (e e' : env) (id : nat) (db : database) :
  analyze_item e' id (snd (analyze_item e id db))
  = (outcome_of_repeat (fst (analyze_item e id db)), snd (analyze_item e id db)).
Proof.
  unfold analyze_item, first_where.
  destruct (List.find _ (items db)) as [item|] eqn:I.
  - destruct (List.find _ (mena_analysis db)) as [a|] eqn:A; simpl.
    + now rewrite I, A.
    + rewrite I, (find_app_none _ _ _ A). simpl. now rewrite Nat.eqb_refl.
  - simpl. now rewrite I.
Qed.

(** [analyze_item] keeps the table free of a second analysis for any
    item. *)
Theorem analyze_item_one_per_item (e : env) (id : nat) (db : database) :
  one_analysis_per_item db ->
  one_analysis_per_item (snd (analyze_item e id db)).
Proof.
  intros H. pose proof (analyze_item_effect e id db) as E.
  destruct (analyze_item e id db) as [o db']. simpl.
  destruct E as [[-> _]|(a & s & _ & Ha & N & _ & ->)]; [exact H|].
  unfold one_analysis_per_item in *. simpl.
  rewrite map_app. simpl. rewrite Ha.
  apply NoDup_app; [exact H | constructor; [intros []|constructor] |].
  intros x Hx [<-|[]].
  apply in_map_iff in Hx. destruct Hx as (b & Hb & Hin).
  pose proof (find_none _ _ N b Hin) as F. simpl in F.
  rewrite Hb, Nat.eqb_refl in F. discriminate.
Qed.

(** A reply with a score above the range, one sub-score above it, one
    sent as a string and a key of the model's own. *)
Lemma sanitize_spec_witness :
  let result :=
    [ ("fit_score", JInt 150);
      ("mena_summary", JStr "Strong GCC fit.");
      ("rubric", JObj [ ("budget_buyer_exists", JInt 25);
                        ("time_to_revenue", JStr "7");
                        ("notes", JNull) ]) ] in
  let r :=
    {| fit_score := 100;
       mena_summary := JStr "Strong GCC fit.";
       rubric := [ ("budget_buyer_exists", JInt 20);
                   ("time_to_revenue", JInt 7);
                   ("notes", JNull);
                   ("localization_arabic_bilingual", JInt 10);
                   ("regulatory_friction", JInt 10);
                   ("distribution_path", JInt 10) ] |} in
  sanitize (JObj result) = inr r
  /\ Forall (sanitized_entry (sent_rubric result) (rubric r)) rubric_keys.
Proof.
  intros result r.
  assert (H : sanitize (JObj result) = inr r) by (vm_compute; reflexivity).
  split; [exact H|].
  exact (proj1 (proj2 (sanitize_spec result r H))).
Defined.

Lemma analyze_item_one_per_item_witness :
  one_analysis_per_item sample_db_items
  /\ one_analysis_per_item (snd (analyze_item sample_env 1 sample_db_items))
  /\ List.length (mena_analysis (snd (analyze_item sample_env 1 sample_db_items))) = 1.
Proof.
  assert (H : one_analysis_per_item sample_db_items) by (vm_compute; constructor).
  split; [exact H|]. split; [|vm_compute; reflexivity].
  exact (analyze_item_one_per_item sample_env 1 sample_db_items H).
Defined.

End Analyzer.

(* ===================================================================== *)
(** * The feed fetcher *)
(* ===================================================================== *)

Section Fetcher.

Lemma substring_length_le (s : string) :
  forall n m, String.length (substring n m s) <= m.
Proof.
  induction s as [|a s IH]; intros n m.
  - destruct n, m; simpl; lia.
  - destruct n, m; simpl; try lia.
    + specialize (IH 0 m). lia.
    + apply IH.
    + apply IH.
Qed.



End Fetcher.

(* ===================================================================== *)
(** * The ingestion orchestrator *)
(* ===================================================================== *)

Section Orchestrator.

Variable e : env.

Lemma same_but_analysis_refl (db : database) : same_but_analysis db db.
Proof. repeat split. Qed.

Lemma same_but_analysis_trans (a b c : database) :
  same_but_analysis a b -> same_but_analysis b c -> same_but_analysis a c.
Proof.
  unfold same_but_analysis. intros H1 H2.
  decompose [and] H1. decompose [and] H2. repeat split; congruence.
Qed.

Lemma analyze_item_frame (id : nat) (db : database) :
  same_but_analysis db (snd (analyze_item e id db)).
Proof.
  pose proof (analyze_item_effect e id db) as E.
  destruct (analyze_item e id db) as [o db']. simpl.
  destruct E as [[-> _]|(a & s & _ & _ & _ & _ & ->)]; repeat split.
Qed.

Lemma enqueue_analysis_frame (id : nat) (w : world) :
  same_but_analysis (w_db w) (w_db (snd (enqueue_analysis e id w))).
Proof.
  unfold enqueue_analysis. destruct (queue_up e); simpl.
  - apply same_but_analysis_refl.
  - pose proof (analyze_item_frame id (w_db w)) as F.
    destruct (analyze_item e id (w_db w)) as [o db']. exact F.
Qed.

(** One turn of the loop. *)
Lemma ingest_candidate_effect (source : Source) (c : candidate) (st : pass_state) :
  let st' := final_state (ingest_candidate e source c st) in
  same_but_analysis (w_db (ps_world st)) (w_db (ps_world st'))
  /\ exists ni nf nc, session_grows st st' ni nf nc
                       /\ rows_ok (source_id source) ni nf nc.
Proof.
  assert (Keep : same_but_analysis (w_db (ps_world st)) (w_db (ps_world st))
                 /\ exists ni nf nc, session_grows st st ni nf nc
                                     /\ rows_ok (source_id source) ni nf nc).
  { split; [apply same_but_analysis_refl|]. exists [], [], [].
    unfold session_grows, rows_ok. rewrite !app_nil_r. simpl.
    repeat split; auto. }
  unfold ingest_candidate.
  destruct (String.eqb (cand_url c) ""); [exact Keep|].
  pose proof (create_item_hash_shape (check_bracketed_netloc e)
                (cand_url c) (cand_title c) (cand_published_at c)) as HS.
  destruct (create_item_hash _ _ _ _) as [x|hash_value] eqn:EH; [exact Keep|].
  destruct (first_where _ _) as [found|]; [exact Keep|].
  assert (L : String.length hash_value = 64).
  { destruct (UrlParse.urlparse _ _); [discriminate|].
    destruct HS as (h & Eh & Lh & _). congruence. }
  set (db1 := set_next_item_id _ _).
  set (w1 := mkWorld db1 _).
  pose proof (enqueue_analysis_frame (next_item_id (w_db (ps_world st))) w1) as F.
  destruct (determine_item_type _ _ _);
    destruct (enqueue_analysis e _ w1) as [j w2]; simpl in *.
  - split.
    + eapply same_but_analysis_trans; [|exact F]. repeat split.
    + eexists [_], [_], []. unfold session_grows, rows_ok. simpl.
      rewrite app_nil_r. repeat split; auto; try lia; repeat constructor; auto.
  - split.
    + eapply same_but_analysis_trans; [|exact F]. repeat split.
    + eexists [_], [], [_]. unfold session_grows, rows_ok. simpl.
      rewrite app_nil_r. repeat split; auto; try lia; repeat constructor; auto.
Qed.

Lemma session_grows_trans (a b c : pass_state) ni nf nc ni' nf' nc' :
  session_grows a b ni nf nc -> session_grows b c ni' nf' nc' ->
  session_grows a c (ni ++ ni') (nf ++ nf') (nc ++ nc').
Proof.
  unfold session_grows. intros (A1 & A2 & A3 & A4) (B1 & B2 & B3 & B4).
  rewrite B1, B2, B3, B4, A1, A2, A3, A4, !app_assoc, List.length_app.
  repeat split; lia.
Qed.

Lemma rows_ok_app (sid : nat) ni nf nc ni' nf' nc' :
  rows_ok sid ni nf nc -> rows_ok sid ni' nf' nc' ->
  rows_ok sid (ni ++ ni') (nf ++ nf') (nc ++ nc').
Proof.
  unfold rows_ok. intros (A1 & A2 & A3) (B1 & B2 & B3).
  rewrite !List.length_app. repeat split; [lia | |]; apply Forall_app; auto.
Qed.

(** The whole loop: the committed tables stay as they are but for
    analysis rows, and the session grows by well-formed rows. *)
Lemma ingest_candidates_effect (source : Source) (cs : list candidate) :
  forall st,
    let st' := final_state (ingest_candidates e source cs st) in
    same_but_analysis (w_db (ps_world st)) (w_db (ps_world st'))
    /\ exists ni nf nc, session_grows st st' ni nf nc
                        /\ rows_ok (source_id source) ni nf nc.
Proof.
  induction cs as [|c cs IH]; intros st; simpl.
  - split; [apply same_but_analysis_refl|]. exists [], [], [].
    unfold session_grows, rows_ok. rewrite !app_nil_r. simpl.
    repeat split; auto.
  - pose proof (ingest_candidate_effect source c st) as S.
    destruct (ingest_candidate e source c st) as [[x st1]|st1]; [exact S|].
    simpl in S. destruct S as (F1 & ni & nf & nc & G1 & R1).
    destruct (IH st1) as (F2 & ni' & nf' & nc' & G2 & R2).
    split; [eapply same_but_analysis_trans; eauto|].
    exists (ni ++ ni')%list, (nf ++ nf')%list, (nc ++ nc')%list.
    split; [eapply session_grows_trans; eauto | apply rows_ok_app; auto].
Qed.


(** ** The rows a pass adds *)


(** ** The run record of a pass *)



(** ** A batch over all enabled sources *)






(** ** A second pass over the same feed *)




Lemma visible_grows_step (source : Source) (c : candidate) (st : pass_state) :
  exists ni,
    visible (final_state (ingest_candidate e source c st)) = (visible st ++ ni)%list.
Proof.
  destruct (ingest_candidate_effect source c st)
    as ((_ & F & _) & ni & nf & nc & (G & _) & _).
  exists ni. unfold visible. now rewrite F, G, app_assoc.
Qed.







Lemma commit_empty (db : database) : commit empty_session db = db.
Proof. destruct db. unfold commit. simpl. now rewrite !app_nil_r. Qed.


End Orchestrator.




(* ===================================================================== *)
(** * Re-analysis of the items without analysis *)
(* ===================================================================== *)

Section Reanalysis.

Variable e : env.

Lemma enqueue_each_up (ids : list nat) :
  queue_up e = true ->
  forall count w,
    enqueue_each e ids count w
    = (count + List.length ids,
       mkWorld (w_db w) (w_queue w ++ map JobAnalyzeItem ids)).
Proof.
  intros Q. induction ids as [|id ids IH]; intros count w; simpl.
  - rewrite Nat.add_0_r, app_nil_r. now destruct w.
  - unfold enqueue_analysis. rewrite Q, IH. simpl.
    rewrite <- app_assoc. simpl. f_equal. lia.
Qed.

(** With the queue in reach, [reanalyze_all_items] queues one analysis
    job per item without analysis, in item order, reports their number
    and leaves the database as it is. *)
Theorem reanalyze_all_items_queue_up (w : world) :
  queue_up e = true ->
  reanalyze_all_items e w
  = (List.length (unanalysed (w_db w)),
     mkWorld (w_db w)
             (w_queue w ++ map JobAnalyzeItem (map item_id (unanalysed (w_db w))))).
Proof.
  intros Q. unfold reanalyze_all_items.
  rewrite (enqueue_each_up _ Q). now rewrite length_map.
Qed.

Lemma analyze_item_analysed (id : nat) (db : database) :
  In id (map item_id (items db)) ->
  analysed_id (snd (analyze_item e id db)) id = true
  /\ items (snd (analyze_item e id db)) = items db
  /\ (forall id', analysed_id db id' = true ->
                  analysed_id (snd (analyze_item e id db)) id' = true).
Proof.
  intros Hin. unfold analyze_item, first_where.
  destruct (List.find _ (items db)) as [item|] eqn:I.
  - destruct (List.find _ (mena_analysis db)) as [a|] eqn:A; simpl.
    + repeat split; auto. unfold analysed_id.
      destruct (existsb _ _) eqn:X; [reflexivity|].
      apply find_none_existsb in X. congruence.
    + unfold analysed_id. simpl. repeat split.
      * rewrite existsb_app. simpl. now rewrite Nat.eqb_refl, orb_true_r.
      * intros id' H. rewrite existsb_app, H. reflexivity.
  - apply in_map_iff in Hin. destruct Hin as (i & Hi & Hin).
    pose proof (find_none _ _ I i Hin) as F. simpl in F.
    rewrite Hi, Nat.eqb_refl in F. discriminate.
Qed.

Lemma enqueue_each_down (ids : list nat) :
  queue_up e = false ->
  forall count w,
    (forall id, In id ids -> In id (map item_id (items (w_db w)))) ->
    let r := enqueue_each e ids count w in
    fst r = count + List.length ids
    /\ w_queue (snd r) = w_queue w
    /\ items (w_db (snd r)) = items (w_db w)
    /\ (forall id, In id ids -> analysed_id (w_db (snd r)) id = true)
    /\ (forall id, analysed_id (w_db w) id = true ->
                   analysed_id (w_db (snd r)) id = true).
Proof.
  intros Q. induction ids as [|id ids IH]; intros count w H; simpl.
  - rewrite Nat.add_0_r. repeat split; auto; try (intros ? []).
  - unfold enqueue_analysis. rewrite Q.
    destruct (analyze_item_analysed id (w_db w)) as (A1 & A2 & A3);
      [apply H; now left|].
    destruct (analyze_item e id (w_db w)) as [o db1]. simpl in A1, A2, A3.
    destruct (IH (S count) (mkWorld db1 (w_queue w))) as (B1 & B2 & B3 & B4 & B5).
    + simpl. intros id' Hid'. rewrite A2. apply H. now right.
    + simpl in *. rewrite B1, B2, B3, A2. repeat split; auto; try lia.
      intros id' [<-|Hid']; auto.
Qed.

(** With the queue out of reach, [reanalyze_all_items] runs every
    analysis in line: it reports the number of items that had no
    analysis, and afterwards every item has an analysis row; the queue
    and the items stay as they are. *)
Theorem reanalyze_all_items_queue_down (w : world) :
  queue_up e = false ->
  fst (reanalyze_all_items e w) = List.length (unanalysed (w_db w))
  /\ all_analysed (w_db (snd (reanalyze_all_items e w)))
  /\ items (w_db (snd (reanalyze_all_items e w))) = items (w_db w)
  /\ w_queue (snd (reanalyze_all_items e w)) = w_queue w.
Proof.
  intros Q. unfold reanalyze_all_items. fold (unanalysed (w_db w)).
  destruct (enqueue_each_down (map item_id (unanalysed (w_db w))) Q 0 w)
    as (B1 & B2 & B3 & B4 & B5).
  - intros id Hid. apply in_map_iff in Hid. destruct Hid as (i & <- & Hi).
    apply in_map. unfold unanalysed in Hi. apply filter_In in Hi. tauto.
  - rewrite B1, length_map. repeat split; auto.
    unfold all_analysed. rewrite B3. intros i Hi.
    change (has_analysis ?d i) with (analysed_id d (item_id i)).
    destruct (has_analysis (w_db w) i) eqn:Ha.
    + apply B5. exact Ha.
    + apply B4. apply in_map. unfold unanalysed. apply filter_In.
      split; [exact Hi | now rewrite Ha].
Qed.

End Reanalysis.

Lemma reanalyze_all_items_queue_up_witness :
  queue_up sample_env = true
  /\ reanalyze_all_items sample_env (mkWorld sample_db_items [])
     = (2, mkWorld sample_db_items [JobAnalyzeItem 1; JobAnalyzeItem 2]).
Proof.
  split; [reflexivity|].
  rewrite (reanalyze_all_items_queue_up sample_env _ eq_refl).
  vm_compute. reflexivity.
Defined.

Lemma reanalyze_all_items_queue_down_witness :
  queue_up sample_env_queue_down = false
  /\ fst (reanalyze_all_items sample_env_queue_down (mkWorld sample_db_items [])) = 2
  /\ all_analysed
       (w_db (snd (reanalyze_all_items sample_env_queue_down
                     (mkWorld sample_db_items [])))).
Proof.
  split; [reflexivity|].
  destruct (reanalyze_all_items_queue_down sample_env_queue_down
              (mkWorld sample_db_items []) eq_refl) as (A & B & _).
  split; [rewrite A; vm_compute; reflexivity | exact B].
Defined.

(* ===================================================================== *)
(** * Round type: what the rules can return *)
(* ===================================================================== *)

Section RoundRules.

Lemma flat_map_nil {A B} (f : A -> list B) (l : list A) :
  flat_map f l = [] <-> (forall x, In x l -> f x = []).
Proof.
  induction l as [|a l IH]; simpl.
  - split; [intros _ x [] | reflexivity].
  - split.
    + intros H. apply app_eq_nil in H. destruct H as [Ha Hl].
      intros x [<-|Hx]; [exact Ha | now apply IH].
    + intros H. rewrite (H a (or_introl eq_refl)).
      apply IH. intros x Hx. apply H. now right.
Qed.

(** Where the first rule finds nothing, the fifth finds nothing. *)
Lemma fifth_rule_at (c : cursor) :
  exec (Seq (Lit "series") (Seq (Plus isspace) (Group (Cls cls_az)))) c None = [] ->
  exec (Seq (Lit "series")
            (Seq (Plus isspace) (Seq (Group (Cls cls_az)) (Opt (Cls isdigit)))))
       c None = [].
Proof.
  cbn [exec]. rewrite !flat_map_nil. intros H o1 H1.
  specialize (H o1 H1). rewrite flat_map_nil in H. apply flat_map_nil.
  intros o2 H2. specialize (H o2 H2). cbn [exec]. rewrite H. reflexivity.
Qed.

Lemma fifth_rule_search (n : nat) :
  forall c,
    search_from (Seq (Lit "series") (Seq (Plus isspace) (Group (Cls cls_az)))) n c = None ->
    search_from (Seq (Lit "series")
                     (Seq (Plus isspace) (Seq (Group (Cls cls_az)) (Opt (Cls isdigit)))))
                n c = None.
Proof.
  induction n as [|n IH]; intros c; simpl; unfold match_at;
    destruct (exec (Seq (Lit "series") (Seq (Plus isspace) (Group (Cls cls_az)))) c None)
      as [|o os] eqn:E; try discriminate;
    rewrite (fifth_rule_at c E); auto.
  destruct (rest c); auto.
Qed.

(** The fifth rule of the round type, [series\s+([a-z])\d?], never
    decides: it stands behind the first rule, which matches wherever it
    does. Dropping it from the list changes the round type of no text. *)
Theorem fifth_round_rule_dead (text : string) :
  extract_round round_patterns text = extract_round round_patterns_but_fifth text.
Proof.
  unfold round_patterns_but_fifth, round_patterns. cbn [firstn skipn app extract_round].
  destruct (re_search (Seq (Lit "series") (Seq (Plus isspace) (Group (Cls cls_az)))) text)
    eqn:E1; [reflexivity|].
  destruct (re_search (Seq (Lit "seed") _) text); [reflexivity|].
  destruct (re_search (Lit "pre-seed") text); [reflexivity|].
  destruct (re_search (Lit "seed") text); [reflexivity|].
  unfold re_search in *. now rewrite (fifth_rule_search _ _ E1).
Qed.

(** The group of a match is the text its pattern took. *)
Lemma exec_group_text (r : regex) (c : cursor) (g : option string) (o : outcome) :
  In o (exec (Group r) c g) -> exists w, snd o = Some w /\ lang r w.
Proof.
  cbn [exec]. intros H. apply in_map_iff in H. destruct H as (o1 & <- & H1).
  destruct (exec_sound r c g o1 H1) as (w & [R P] & L).
  exists w. split; [|exact L]. simpl. f_equal.
  rewrite R, P. replace (pos c + String.length w - pos c) with (String.length w) by lia.
  rewrite <- (Nat.add_0_r (String.length w)), substring_app_take.
  simpl. destruct (rest (fst o1)); apply append_empty_r.
Qed.

Lemma exec_seq (a b : regex) (c : cursor) (g : option string) (o : outcome) :
  In o (exec (Seq a b) c g) ->
  exists o1, In o1 (exec a c g) /\ In o (exec b (fst o1) (snd o1)).
Proof. cbn [exec]. intros H. now apply in_flat_map in H. Qed.

Lemma series_rule_group (n : nat) :
  forall c m,
    search_from (Seq (Lit "series") (Seq (Plus isspace) (Group (Cls cls_az)))) n c = Some m ->
    exists a, cls_az a = true /\ group1 m = String a "".
Proof.
  assert (At : forall c m,
             match_at (Seq (Lit "series") (Seq (Plus isspace) (Group (Cls cls_az)))) c
               = Some m ->
             exists a, cls_az a = true /\ group1 m = String a "").
  { intros c m H. unfold match_at in H.
    destruct (exec _ c None) as [|o os] eqn:E; [discriminate|].
    injection H as <-. unfold group1. simpl.
    assert (Hin : In o (exec (Seq (Lit "series")
                                  (Seq (Plus isspace) (Group (Cls cls_az)))) c None))
      by (rewrite E; now left).
    apply exec_seq in Hin. destruct Hin as (o1 & _ & Hin).
    apply exec_seq in Hin. destruct Hin as (o2 & _ & Hin).
    destruct (exec_group_text _ _ _ _ Hin) as (w & -> & a & -> & Pa).
    now exists a. }
  induction n as [|n IH]; intros c m; simpl;
    destruct (match_at _ c) as [m'|] eqn:E; try discriminate.
  - intros [= <-]. eapply At; eauto.
  - intros [= <-]. eapply At; eauto.
  - destruct (rest c); [discriminate | apply IH].
Qed.

(** Whatever the title and the summary, the round type is null, one of
    "seed", "pre_seed", "growth", "bridge", or "series_" followed by one
    letter from a to z. *)
Theorem round_type_labels (title summary : string) :
  round_label (round_type (extract_funding_details title summary)).
Proof.
  cbn [extract_funding_details round_type].
  rewrite fifth_round_rule_dead.
  unfold round_patterns_but_fifth, round_patterns, round_label.
  cbn [firstn skipn app extract_round].
  set (text := lower (title ++ " " ++ summary)).
  destruct (re_search (Seq (Lit "series") (Seq (Plus isspace) (Group (Cls cls_az)))) text)
    as [m|] eqn:E1.
  { right. right. unfold re_search in E1.
    destruct (series_rule_group _ _ _ E1) as (a & Pa & ->). now exists a. }
  destruct (re_search (Seq (Lit "seed") _) text); [right; left; simpl; tauto|].
  destruct (re_search (Lit "pre-seed") text); [right; left; simpl; tauto|].
  destruct (re_search (Lit "seed") text); [right; left; simpl; tauto|].
  destruct (re_search (Seq (Lit "growth") _) text); [right; left; simpl; tauto|].
  destruct (re_search (Seq (Lit "bridge") _) text); [right; left; simpl; tauto|].
  now left.
Qed.

End RoundRules.

(* ===================================================================== *)
(** * The hash and the form of the title *)
(* ===================================================================== *)

Section TitleForm.

Variable chk : string -> option string.

Lemma isspace_lower_char (c : ascii) : isspace (lower_char c) = isspace c.
Proof.
  destruct c as [b0 b1 b2 b3 b4 b5 b6 b7].
  destruct b0, b1, b2, b3, b4, b5, b6, b7; reflexivity.
Qed.

Lemma all_space_lower (ws : string) :
  all_chars isspace ws = true -> all_chars isspace (lower ws) = true.
Proof.
  induction ws as [|a ws IH]; simpl; [reflexivity|].
  rewrite isspace_lower_char. intros H. apply andb_true_iff in H.
  destruct H as [-> H]. now apply IH.
Qed.

Lemma lstrip_by_app (p : ascii -> bool) (ws x : string) :
  all_chars p ws = true -> lstrip_by p (ws ++ x) = lstrip_by p x.
Proof.
  induction ws as [|a ws IH]; simpl; [reflexivity|].
  intros H. apply andb_true_iff in H. destruct H as [-> H]. now apply IH.
Qed.

Lemma rstrip_by_all (p : ascii -> bool) (ws : string) :
  all_chars p ws = true -> rstrip_by p ws = "".
Proof.
  induction ws as [|a ws IH]; simpl; [reflexivity|].
  intros H. apply andb_true_iff in H. destruct H as [Ha H].
  now rewrite (IH H), Ha.
Qed.

Lemma rstrip_by_app_r (p : ascii -> bool) (s ws : string) :
  all_chars p ws = true -> rstrip_by p (s ++ ws) = rstrip_by p s.
Proof.
  intros H. induction s as [|a s IH]; simpl.
  - now apply rstrip_by_all.
  - now rewrite IH.
Qed.

Lemma rstrip_by_app_l (p : ascii -> bool) (ws x : string) :
  all_chars p ws = true ->
  rstrip_by p (ws ++ x)
  = match rstrip_by p x with
    | EmptyString => EmptyString
    | r => ws ++ r
    end.
Proof.
  induction ws as [|a ws IH]; simpl.
  - intros _. destruct (rstrip_by p x); reflexivity.
  - intros H. apply andb_true_iff in H. destruct H as [Ha H].
    rewrite (IH H). destruct (rstrip_by p x) as [|b r]; [now rewrite Ha|].
    destruct ws; reflexivity.
Qed.

(** Whitespace around a text does not survive [strip]. *)
Lemma strip_by_padding (p : ascii -> bool) (ws1 s ws2 : string) :
  all_chars p ws1 = true -> all_chars p ws2 = true ->
  strip_by p (ws1 ++ s ++ ws2) = strip_by p s.
Proof.
  intros H1 H2. unfold strip_by.
  rewrite (rstrip_by_app_l p ws1 _ H1), (rstrip_by_app_r p s ws2 H2).
  destruct (rstrip_by p s) as [|b r]; [reflexivity|].
  now apply lstrip_by_app.
Qed.

(** Two titles that differ in letter case only, the first of them also
    padded with whitespace on either side, give the same hash (or the
    same exception) for the same URL and timestamp. *)
Theorem create_item_hash_title_form
  (url t1 t2 pad1 pad2 : string) (published_at : option DateTime.datetime) :
  lower t1 = lower t2 ->
  all_chars isspace pad1 = true ->
  all_chars isspace pad2 = true ->
  create_item_hash chk url (pad1 ++ t1 ++ pad2) published_at
  = create_item_hash chk url t2 published_at.
Proof.
  intros L P1 P2. unfold create_item_hash, hash_content.
  destruct (UrlParse.urlparse chk url) as [x|parsed]; simpl; [reflexivity|].
  rewrite !lower_app, L. unfold strip.
  now rewrite (strip_by_padding isspace _ _ _ (all_space_lower _ P1) (all_space_lower _ P2)).
Qed.

End TitleForm.

Lemma create_item_hash_title_form_witness :
  lower "TEST Article" = lower "Test article"
  /\ all_chars isspace "  " = true
  /\ create_item_hash (fun _ => None) "https://example.com/a"
                      ("  " ++ "TEST Article" ++ "  ") None
     = create_item_hash (fun _ => None) "https://example.com/a" "Test article" None.
Proof.
  assert (H1 : lower "TEST Article" = lower "Test article") by (vm_compute; reflexivity).
  assert (H2 : all_chars isspace "  " = true) by (vm_compute; reflexivity).
  split; [exact H1|]. split; [exact H2|].
  exact (create_item_hash_title_form (fun _ => None) "https://example.com/a"
           "TEST Article" "Test article" "  " "  " None H1 H2 H2).
Defined.

(** * [create_item_hash]: the query and the fragment of the URL *)

Section QueryFragment.
Variable chk : string -> option string.

Lemma lstrip_by_stop (p : ascii -> bool) (u x : string) (d : ascii) :
  p d = false -> lstrip_by p (u ++ String d x) = lstrip_by p u ++ String d x.
Proof.
  intros H. induction u as [|a u IH]; simpl; [now rewrite H|].
  destruct (p a); [exact IH | reflexivity].
Qed.

Lemma find_char_cons (c a : ascii) (s : string) :
  find (String c EmptyString) (String a s)
  = if Ascii.eqb c a then Some 0 else option_map S (find (String c EmptyString) s).
Proof.
  cbn [find prefix]. destruct (ascii_dec c a) as [->|N].
  - now rewrite prefix_empty, Ascii.eqb_refl.
  - destruct (Ascii.eqb_spec c a); [contradiction | reflexivity].
Qed.

Lemma find_char_lt (c : ascii) (s : string) :
  forall i, find (String c EmptyString) s = Some i -> i < String.length s.
Proof.
  induction s as [|a s IH]; intros i.
  - cbn. discriminate.
  - rewrite find_char_cons. destruct (Ascii.eqb c a).
    + intros [= <-]. simpl. lia.
    + destruct (find (String c EmptyString) s) as [j|]; [|discriminate].
      intros [= <-]. specialize (IH j eq_refl). simpl. lia.
Qed.

Lemma find_char_app_some (c : ascii) (s t : string) :
  forall i, find (String c EmptyString) s = Some i -> find (String c EmptyString) (s ++ t) = Some i.
Proof.
  induction s as [|a s IH]; intros i.
  - cbn. discriminate.
  - simpl append. rewrite !find_char_cons. destruct (Ascii.eqb c a); [auto|].
    destruct (find (String c EmptyString) s) as [j|]; [|discriminate].
    intros [= <-]. now rewrite (IH j eq_refl).
Qed.

Lemma find_char_app_none (c : ascii) (s t : string) :
  find (String c EmptyString) s = None ->
  find (String c EmptyString) (s ++ t) = option_map (Nat.add (String.length s)) (find (String c EmptyString) t).
Proof.
  induction s as [|a s IH].
  - intros _. simpl. destruct (find (String c EmptyString) t); reflexivity.
  - simpl append. rewrite !find_char_cons. destruct (Ascii.eqb c a); [discriminate|].
    destruct (find (String c EmptyString) s) as [j|]; [discriminate|]. intros _.
    rewrite (IH eq_refl). destruct (find (String c EmptyString) t); reflexivity.
Qed.

Lemma substring_app_le (a b : string) :
  forall n, n <= String.length a -> substring 0 n (a ++ b) = substring 0 n a.
Proof.
  induction a as [|c a IH]; intros n H; simpl in *.
  - assert (n = 0) by lia. subst. destruct b; reflexivity.
  - destruct n; [reflexivity|]. simpl. rewrite IH by lia. reflexivity.
Qed.

Lemma slice_from_app (a b : string) :
  forall k, k <= String.length a -> slice_from (a ++ b) k = slice_from a k ++ b.
Proof.
  unfold slice_from. induction a as [|c a IH]; intros k H; simpl in *.
  - assert (k = 0) by lia. subst. rewrite Nat.sub_0_r. now rewrite substring_full.
  - destruct k.
    + simpl. rewrite length_app. 
      rewrite substring_app_take. now rewrite !substring_full.
    + simpl. apply IH. lia.
Qed.

Lemma forall_chars_has (p : ascii -> bool) (a x : string) (d : ascii) :
  p d = false ->
  forall n, String.length a < n ->
  UrlParse.forall_chars p (substring 0 n (a ++ String d x)) = false.
Proof.
  intros Hd. induction a as [|c a IH]; intros n H; simpl in *.
  - destruct n; [lia|]. simpl. now rewrite Hd.
  - destruct n; [lia|]. simpl. rewrite IH by lia. apply andb_false_r.
Qed.

Lemma split_scheme_stop (u x : string) (d : ascii) :
  UrlParse.scheme_char d = false -> UrlParse.ascii_alpha d = false ->
  Ascii.eqb ":" d = false ->
  UrlParse.split_scheme (u ++ String d x)
  = (fst (UrlParse.split_scheme u), snd (UrlParse.split_scheme u) ++ String d x).
Proof.
  intros Hs Ha Hc. unfold UrlParse.split_scheme.
  destruct (find ":" u) as [i|] eqn:F.
  - rewrite (find_char_app_some _ _ _ _ F).
    pose proof (find_char_lt _ _ _ F) as Lt.
    destruct i as [|i]; [destruct u; reflexivity|].
    destruct u as [|c0 u]; [discriminate|]. simpl append.
    assert (E1 : slice_to (String c0 (u ++ String d x)) (S i)
                 = slice_to (String c0 u) (S i))
      by (apply (substring_app_le (String c0 u)); lia).
    assert (E2 : slice_from (String c0 (u ++ String d x)) (S (S i))
                 = slice_from (String c0 u) (S (S i)) ++ String d x)
      by (apply (slice_from_app (String c0 u)); lia).
    rewrite E1, E2.
    destruct (UrlParse.ascii_alpha c0 && _)%bool; reflexivity.
  - rewrite (find_char_app_none _ _ _ F), find_char_cons, Hc.
    destruct (find ":" x) as [j|]; simpl option_map.
    + replace (String.length u + S j) with (S (String.length u + j)) by lia.
      destruct u as [|c0 u].
      * simpl. now rewrite Ha.
      * simpl append.
        assert (E : UrlParse.forall_chars UrlParse.scheme_char
                      (slice_to (String c0 (u ++ String d x))
                                (S (String.length (String c0 u) + j))) = false)
          by (apply (forall_chars_has _ (String c0 u) _ _ Hs); lia).
        rewrite E. now rewrite andb_false_r.
    + destruct u; reflexivity.
Qed.

Lemma prefix_slashes_stop (r x : string) (d : ascii) :
  Ascii.eqb "/" d = false ->
  prefix "//" (r ++ String d x) = prefix "//" r.
Proof.
  intros H. assert (N : "/"%char <> d) by (intros E; rewrite E, Ascii.eqb_refl in H; discriminate).
  destruct r as [|a [|b r]]; cbn [prefix append].
  - destruct (ascii_dec "/" d); [contradiction | reflexivity].
  - destruct (ascii_dec "/" a); [|reflexivity].
    destruct (ascii_dec "/" d); [contradiction | reflexivity].
  - now rewrite !prefix_empty.
Qed.

Lemma prefix_slashes_length (r : string) :
  prefix "//" r = true -> 2 <= String.length r.
Proof.
  destruct r as [|a [|b r]]; cbn [prefix String.length]; try discriminate; [|lia].
  destruct (ascii_dec "/" a); discriminate.
Qed.

Lemma span_while_stop (q : ascii -> bool) (y x : string) (d : ascii) :
  q d = false ->
  UrlParse.span_while q (y ++ String d x)
  = (fst (UrlParse.span_while q y), snd (UrlParse.span_while q y) ++ String d x).
Proof.
  intros H. induction y as [|a y IH]; simpl; [now rewrite H|].
  destruct (q a); [|reflexivity].
  rewrite IH. destruct (UrlParse.span_while q y). reflexivity.
Qed.

Lemma cut_at_none (c : ascii) (r : string) :
  all_chars (not_char c) r = true -> UrlParse.cut_at c r = (r, EmptyString).
Proof.
  induction r as [|a r IH]; simpl; [reflexivity|]. unfold not_char at 1.
  intros H. apply andb_true_iff in H. destruct H as [Ha H].
  destruct (Ascii.eqb a c); [discriminate|]. now rewrite (IH H).
Qed.

Lemma cut_at_app (c : ascii) (r y : string) :
  all_chars (not_char c) r = true ->
  UrlParse.cut_at c (r ++ y)
  = (r ++ fst (UrlParse.cut_at c y), snd (UrlParse.cut_at c y)).
Proof.
  induction r as [|a r IH]; simpl.
  - intros _. destruct (UrlParse.cut_at c y); reflexivity.
  - unfold not_char at 1. intros H. apply andb_true_iff in H. destruct H as [Ha H].
    destruct (Ascii.eqb a c); [discriminate|]. rewrite (IH H). reflexivity.
Qed.

Lemma urlsplit_authority (url : string) :
  UrlParse.urlsplit chk url
  = (r <- authority chk url ;;
     let '(scheme, netloc, url) := r in
     let '(url, fragment) := UrlParse.cut_at "#" url in
     let '(url, query) := UrlParse.cut_at "?" url in
     ok (UrlParse.mkParseResult scheme netloc url EmptyString query fragment)).
Proof.
  unfold UrlParse.urlsplit, authority.
  destruct (UrlParse.split_scheme _) as [sch u].
  destruct (prefix "//" u); [|reflexivity].
  destruct (UrlParse.span_while _ _) as [nl rest].
  destruct (_ || _)%bool; [reflexivity|].
  destruct (_ && _)%bool; [destruct (chk nl)|]; reflexivity.
Qed.

Lemma authority_stop (u x : string) (d : ascii) :
  d = "?"%char \/ d = "#"%char ->
  authority chk (u ++ String d x)
  = match authority chk u with
    | inl e => inl e
    | inr (scheme, netloc, rest) =>
        inr (scheme, netloc, rest ++ String d (remove_chars UrlParse.unsafe_byte x))
    end.
Proof.
  intros D. unfold authority.
  assert (F : UrlParse.c0_or_space d = false /\ UrlParse.unsafe_byte d = false
              /\ UrlParse.scheme_char d = false /\ UrlParse.ascii_alpha d = false
              /\ Ascii.eqb ":" d = false /\ Ascii.eqb "/" d = false
              /\ UrlParse.netloc_char d = false)
    by (destruct D as [->| ->]; repeat split; reflexivity).
  destruct F as (F1 & F2 & F3 & F4 & F5 & F6 & F7).
  rewrite (lstrip_by_stop _ _ _ _ F1), remove_chars_app. simpl remove_chars at 2.
  rewrite F2, (split_scheme_stop _ _ _ F3 F4 F5).
  destruct (UrlParse.split_scheme _) as [sch r]. simpl fst. simpl snd.
  rewrite (prefix_slashes_stop _ _ _ F6).
  destruct (prefix "//" r) eqn:P; [|reflexivity].
  rewrite (slice_from_app _ _ 2 (prefix_slashes_length _ P)), (span_while_stop _ _ _ _ F7).
  destruct (UrlParse.span_while _ _) as [nl rest]. simpl fst. simpl snd.
  destruct (_ || _)%bool; [reflexivity|].
  destruct (_ && _)%bool; [destruct (chk nl)|]; reflexivity.
Qed.

Lemma authority_chars (p : ascii -> bool) (u sch nl rest : string) :
  all_chars p u = true -> authority chk u = inr (sch, nl, rest) ->
  all_chars p rest = true.
Proof.
  intros H. unfold authority.
  set (u1 := remove_chars UrlParse.unsafe_byte (lstrip_by UrlParse.c0_or_space u)).
  assert (H1 : all_chars p u1 = true) by (apply all_chars_remove, all_chars_lstrip, H).
  pose proof (all_chars_split_scheme _ _ H1) as H2.
  destruct (UrlParse.split_scheme u1) as [s u2]. simpl in H2.
  destruct (prefix "//" u2).
  - pose proof (all_chars_span p UrlParse.netloc_char (slice_from u2 2)
                  (all_chars_substring _ _ _ _ H2)) as [_ H3].
    destruct (UrlParse.span_while _ _) as [n r]. simpl in H3.
    destruct (_ || _)%bool; [discriminate|].
    destruct (_ && _)%bool; [destruct (chk n); [discriminate|]|];
      intros [= _ _ <-]; exact H3.
  - intros [= _ _ <-]. exact H2.
Qed.

(** The hash of a parsed URL uses the authority and the path only. *)
Lemma hash_of_split (url title : string) (published_at : option DateTime.datetime) :
  create_item_hash chk url title published_at
  = (r <- UrlParse.urlsplit chk url ;;
     let p := if (existsb (String.eqb (UrlParse.scheme r)) UrlParse.uses_params
                  && contains ";" (UrlParse.path r))%bool
              then fst (UrlParse.splitparams (UrlParse.path r))
              else UrlParse.path r in
     ok (Sha256.hexdigest
           (Sha256.sha256
              (encode_utf8
                 (strip_chars "/" (lower (UrlParse.netloc r ++ p))
                  ++ "|" ++ strip (lower title) ++ "|"
                  ++ match published_at with
                     | Some d => DateTime.isoformat d
                     | None => EmptyString
                     end))))).
Proof.
  unfold create_item_hash, UrlParse.urlparse, hash_content.
  destruct (UrlParse.urlsplit chk url) as [x|r]; simpl; [reflexivity|].
  destruct (_ && _)%bool; [|reflexivity].
  destruct (UrlParse.splitparams (UrlParse.path r)); reflexivity.
Qed.

(** A fragment appended to a URL that has no [#] of its own
    does not change the result of [create_item_hash]: the same digest,
    or the same exception. *)
Theorem create_item_hash_ignores_fragment
  (url frag title : string) (published_at : option DateTime.datetime) :
  all_chars (not_char "#") url = true ->
  create_item_hash chk (url ++ String "#" frag) title published_at
  = create_item_hash chk url title published_at.
Proof.
  intros H. rewrite !hash_of_split, !urlsplit_authority.
  rewrite (authority_stop url frag "#") by (now right).
  destruct (authority chk url) as [x|[[sch nl] rest]] eqn:A; [reflexivity|].
  pose proof (authority_chars _ _ _ _ _ H A) as R.
  cbn [bind]. rewrite (cut_at_app "#" rest _ R), (cut_at_none "#" rest R).
  cbn [UrlParse.cut_at fst snd]. rewrite Ascii.eqb_refl. cbn [fst snd].
  rewrite append_empty_r.
  destruct (UrlParse.cut_at "?" rest). reflexivity.
Qed.

(** A query string appended to a URL that has neither [?] nor
    [#] does not change the result of [create_item_hash], whatever the
    query holds (a fragment after it included). *)
Theorem create_item_hash_ignores_query
  (url query title : string) (published_at : option DateTime.datetime) :
  all_chars (not_char "?") url = true ->
  all_chars (not_char "#") url = true ->
  create_item_hash chk (url ++ String "?" query) title published_at
  = create_item_hash chk url title published_at.
Proof.
  intros Hq Hf. rewrite !hash_of_split, !urlsplit_authority.
  rewrite (authority_stop url query "?") by (now left).
  destruct (authority chk url) as [x|[[sch nl] rest]] eqn:A; [reflexivity|].
  pose proof (authority_chars _ _ _ _ _ Hq A) as Rq.
  pose proof (authority_chars _ _ _ _ _ Hf A) as Rf.
  cbn [bind]. rewrite (cut_at_app "#" rest _ Rf), (cut_at_none "#" rest Rf).
  cbn [UrlParse.cut_at]. change (Ascii.eqb "?" "#") with false. cbv iota.
  destruct (UrlParse.cut_at "#" (remove_chars UrlParse.unsafe_byte query)) as [qa f].
  cbn [fst snd].
  rewrite (cut_at_app "?" rest _ Rq), (cut_at_none "?" rest Rq).
  cbn [UrlParse.cut_at fst snd]. rewrite Ascii.eqb_refl. cbn [fst snd].
  rewrite append_empty_r. reflexivity.
Qed.
End QueryFragment.

Lemma create_item_hash_ignores_fragment_witness :
  all_chars (not_char "#") "https://Example.com/news/a?page=2" = true
  /\ create_item_hash (fun _ => None)
       ("https://Example.com/news/a?page=2" ++ String "#" "comments") "Title" None
     = create_item_hash (fun _ => None) "https://Example.com/news/a?page=2" "Title" None.
Proof.
  assert (H : all_chars (not_char "#") "https://Example.com/news/a?page=2" = true)
    by (vm_compute; reflexivity).
  split; [exact H|].
  exact (create_item_hash_ignores_fragment (fun _ => None)
           "https://Example.com/news/a?page=2" "comments" "Title" None H).
Defined.

Lemma create_item_hash_ignores_query_witness :
  all_chars (not_char "?") "https://example.com/article" = true
  /\ all_chars (not_char "#") "https://example.com/article" = true
  /\ create_item_hash (fun _ => None)
       ("https://example.com/article" ++ String "?" "utm_source=rss#top") "Title" None
     = create_item_hash (fun _ => None) "https://example.com/article" "Title" None.
Proof.
  assert (Hq : all_chars (not_char "?") "https://example.com/article" = true)
    by (vm_compute; reflexivity).
  assert (Hf : all_chars (not_char "#") "https://example.com/article" = true)
    by (vm_compute; reflexivity).
  split; [exact Hq|]. split; [exact Hf|].
  exact (create_item_hash_ignores_query (fun _ => None)
           "https://example.com/article" "utm_source=rss#top" "Title" None Hq Hf).
Defined.

(** * [run_llm_analysis]: a reply in a fenced block *)

Section Fences.


Lemma rstrip_by_keep (p : ascii -> bool) (a b : string) (c : ascii) :
  p c = false -> rstrip_by p (a ++ String c b) = a ++ String c (rstrip_by p b).
Proof.
  intros H. induction a as [|x a IH].
  - cbn [append rstrip_by]. rewrite H. destruct (rstrip_by p b); reflexivity.
  - cbn [append rstrip_by]. rewrite IH. destruct a; reflexivity.
Qed.






End Fences.



(* ===================================================================== *)
(** * [extract_company_name]: the form of the name *)
(* ===================================================================== *)

Section NameForm.

Lemma exec_keeps_group (r : regex) :
  group_free r = true ->
  forall c g o, In o (exec r c g) -> snd o = g.
Proof.
  induction r as [s|p|a IHa b IHb|a IHa b IHb|a IHa|p|p|p|a IHa| |];
    cbn [group_free]; intros F c g o H; cbn [exec] in H.
  - destruct (prefix s (rest c)); [|contradiction]. now destruct H as [<-|[]].
  - destruct (rest c) as [|a r]; [contradiction|].
    destruct (p a); [|contradiction]. now destruct H as [<-|[]].
  - apply andb_true_iff in F. destruct F as [Fa Fb].
    apply in_flat_map in H. destruct H as (o1 & H1 & H2).
    rewrite (IHb Fb _ _ _ H2). exact (IHa Fa _ _ _ H1).
  - apply andb_true_iff in F. destruct F as [Fa Fb].
    apply in_app_or in H. destruct H as [H|H]; eauto.
  - apply in_app_or in H. destruct H as [H|[<-|[]]]; eauto.
  - apply in_map_iff in H. now destruct H as (k & <- & _).
  - apply in_map_iff in H. now destruct H as (k & <- & _).
  - apply in_map_iff in H. now destruct H as (k & <- & _).
  - discriminate F.
  - destruct (Nat.eqb (pos c) 0); [|contradiction]. now destruct H as [<-|[]].
  - destruct (xorb _ _); [|contradiction]. now destruct H as [<-|[]].
Qed.

(** The group of an anchored pattern with the group in front. *)
Lemma anchored_group (G tl : regex) (c : cursor) (m : match_obj) :
  group_free tl = true ->
  match_at (Seq Bol (Seq (Group G) tl)) c = Some m ->
  exists w, m_group1 m = Some w /\ lang G w.
Proof.
  intros F H. unfold match_at in H.
  destruct (exec _ c None) as [|o os] eqn:E; [discriminate|].
  injection H as <-. cbn [m_group1].
  assert (Hin : In o (exec (Seq Bol (Seq (Group G) tl)) c None)) by (rewrite E; now left).
  apply exec_seq in Hin. destruct Hin as (o1 & _ & Hin).
  apply exec_seq in Hin. destruct Hin as (o2 & H2 & Hin).
  destruct (exec_group_text _ _ _ _ H2) as (w & Hw & L).
  exists w. split; [|exact L].
  now rewrite (exec_keeps_group tl F _ _ _ Hin).
Qed.

Lemma first_match_some (ps : list regex) (title : string) (m : match_obj) :
  first_match ps title = Some m -> exists p, In p ps /\ re_match p title = Some m.
Proof.
  induction ps as [|p ps IH]; simpl; [discriminate|].
  destruct (re_match p title) as [m'|] eqn:E.
  - intros [= <-]. exists p. auto.
  - intros H. destruct (IH H) as (q & Hq & Hm). exists q. auto.
Qed.

Lemma cls_AZ_not_space (a : ascii) : cls_AZ a = true -> isspace a = false.
Proof.
  destruct a as [b0 b1 b2 b3 b4 b5 b6 b7].
  destruct b0, b1, b2, b3, b4, b5, b6, b7; vm_compute; congruence.
Qed.

(** The group of the pattern that decides starts with a capital. *)
Lemma company_pattern_group (title : string) (m : match_obj) :
  first_match company_patterns title = Some m ->
  exists a v, cls_AZ a = true /\ group1 m = String a v.
Proof.
  intros H. apply first_match_some in H. destruct H as (p & Hp & Hm).
  assert (G : exists w, m_group1 m = Some w
                        /\ lang (Seq (Cls cls_AZ) (PlusLazy cls_name)) w).
  { unfold company_patterns, verb_pattern in Hp. unfold re_match in Hm.
    cbn [In] in Hp.
    repeat (destruct Hp as [<-|Hp];
            [refine (anchored_group _ _ _ _ _ Hm); reflexivity|]).
    contradiction. }
  destruct G as (w & Hw & u & v & -> & (a & -> & Pa) & _).
  exists a, v. split; [exact Pa|]. unfold group1. now rewrite Hw.
Qed.

Lemma rstrip_by_idem (p : ascii -> bool) (s : string) :
  rstrip_by p (rstrip_by p s) = rstrip_by p s.
Proof.
  induction s as [|c s IH]; [reflexivity|].
  cbn [rstrip_by]. destruct (rstrip_by p s) as [|d r] eqn:E.
  - destruct (p c) eqn:Pc; cbn [rstrip_by]; [reflexivity|now rewrite Pc].
  - change (rstrip_by p (String c (String d r)))
      with (match rstrip_by p (String d r) with
            | EmptyString => if p c then EmptyString else String c EmptyString
            | r0 => String c r0
            end).
    now rewrite IH.
Qed.

Lemma rstrip_by_head (p : ascii -> bool) (c : ascii) (b : string) :
  p c = false -> rstrip_by p (String c b) = String c (rstrip_by p b).
Proof. intros H. exact (rstrip_by_keep p EmptyString b c H). Qed.

Lemma strip_capital (a : ascii) (v : string) :
  isspace a = false -> trimmed (strip (String a v)).
Proof.
  intros H.
  assert (E : strip (String a v) = String a (rstrip_by isspace v)).
  { unfold strip, strip_by.
    rewrite (rstrip_by_head isspace a v H). cbn [lstrip_by].
    now rewrite H. }
  rewrite E. split; [discriminate|].
  unfold strip, strip_by.
  rewrite (rstrip_by_head isspace a _ H). cbn [lstrip_by].
  now rewrite H, rstrip_by_idem.
Qed.

(** ** The words of [split] *)

Lemma rev_string_chars (p : ascii -> bool) (s : string) :
  forall acc, all_chars p (rev_string acc s) = (all_chars p acc && all_chars p s)%bool.
Proof.
  induction s as [|c s IH]; intros acc; cbn [rev_string all_chars].
  - now rewrite andb_true_r.
  - rewrite IH. cbn [all_chars]. destruct (p c), (all_chars p acc); reflexivity.
Qed.

Lemma rev_string_length (s : string) :
  forall acc, String.length (rev_string acc s) = String.length acc + String.length s.
Proof.
  induction s as [|c s IH]; intros acc; cbn [rev_string String.length]; [lia|].
  rewrite IH. cbn [String.length]. lia.
Qed.

Lemma flush_word_words (cur : string) (ws : list string) :
  all_chars (fun c => negb (isspace c)) cur = true ->
  Forall is_word ws -> Forall is_word (flush_word cur ws).
Proof.
  intros C W. destruct cur as [|c cur]; [exact W|].
  unfold flush_word. constructor; [|exact W]. split.
  - intros E. apply (f_equal String.length) in E.
    rewrite rev_string_length in E. cbn [String.length] in E. lia.
  - now rewrite rev_string_chars.
Qed.

Lemma split_go_words (s : string) :
  forall cur, all_chars (fun c => negb (isspace c)) cur = true ->
              Forall is_word (split_go cur s).
Proof.
  induction s as [|c s IH]; intros cur C; cbn [split_go].
  - now apply flush_word_words.
  - destruct (isspace c) eqn:Sc.
    + apply flush_word_words; [exact C|]. now apply IH.
    + apply IH. cbn [all_chars]. now rewrite Sc.
Qed.

Lemma split_words (s : string) : Forall is_word (split s).
Proof. now apply split_go_words. Qed.

Lemma take_company_words_incl (ws : list string) :
  Forall is_word ws -> Forall is_word (take_company_words ws).
Proof.
  induction 1 as [|w ws Hw _ IH]; cbn [take_company_words]; [constructor|].
  destruct (is_stop_word w); [constructor|now constructor].
Qed.

Lemma firstn_words (n : nat) (ws : list string) :
  Forall is_word ws -> Forall is_word (firstn n ws).
Proof.
  intros H. revert n. induction H as [|w ws Hw _ IH]; intros [|n]; cbn [firstn];
    constructor; auto.
Qed.

Lemma rstrip_by_word (p : ascii -> bool) (w : string) :
  all_chars (fun c => negb (p c)) w = true -> rstrip_by p w = w.
Proof.
  induction w as [|c w IH]; [reflexivity|]. cbn [all_chars rstrip_by].
  intros H. apply andb_true_iff in H. destruct H as [Hc H].
  rewrite (IH H). apply negb_true_iff in Hc. rewrite Hc. now destruct w.
Qed.

Lemma rstrip_by_fixed_app (p : ascii -> bool) (s t : string) :
  t <> EmptyString -> rstrip_by p t = t -> rstrip_by p (s ++ t) = s ++ t.
Proof.
  intros N F. induction s as [|x s IH]; [exact F|].
  cbn [append rstrip_by]. rewrite IH.
  destruct (s ++ t) eqn:E; [|reflexivity].
  destruct s; [now elim N | discriminate].
Qed.

Lemma join_words (w : string) (ws : list string) :
  Forall is_word (w :: ws) ->
  join " " (w :: ws) <> EmptyString
  /\ rstrip_by isspace (join " " (w :: ws)) = join " " (w :: ws)
  /\ exists a r, isspace a = false /\ join " " (w :: ws) = String a r.
Proof.
  revert w. induction ws as [|v ws IH]; intros w H.
  - inversion H as [|? ? [N C] _]; subst. cbn [join].
    split; [exact N|]. split; [now apply rstrip_by_word|].
    destruct w as [|a r]; [now elim N|]. exists a, r.
    cbn [all_chars] in C. apply andb_true_iff in C. destruct C as [C _].
    apply negb_true_iff in C. auto.
  - inversion H as [|? ? [N C] H']; subst.
    destruct (IH v H') as (N' & R' & _).
    change (join " " (w :: v :: ws)) with (w ++ " " ++ join " " (v :: ws)).
    split; [destruct w; [now elim N|discriminate]|]. split.
    + rewrite <- append_assoc'. apply rstrip_by_fixed_app; assumption.
    + destruct w as [|a r]; [now elim N|]. exists a, (r ++ " " ++ join " " (v :: ws)).
      cbn [all_chars] in C. apply andb_true_iff in C. destruct C as [C _].
      apply negb_true_iff in C. auto.
Qed.

Lemma join_trimmed (w : string) (ws : list string) :
  Forall is_word (w :: ws) -> trimmed (join " " (w :: ws)).
Proof.
  intros H. destruct (join_words w ws H) as (N & R & a & r & Sa & E).
  split; [exact N|]. unfold strip, strip_by. rewrite R, E.
  cbn [lstrip_by]. now rewrite Sa.
Qed.

(** A company name, when [extract_company_name] returns one,
    is never the empty string and has no whitespace at either end. *)
Theorem extract_company_name_trimmed (title name : string) :
  extract_company_name title = Some name -> trimmed name.
Proof.
  unfold extract_company_name.
  destruct (first_match company_patterns title) as [m|] eqn:E.
  - intros [= <-]. destruct (company_pattern_group _ _ E) as (a & v & Pa & ->).
    apply strip_capital. now apply cls_AZ_not_space.
  - destruct (Nat.leb 2 (List.length (split title))); [|discriminate].
    pose proof (take_company_words_incl _ (firstn_words 5 _ (split_words title))) as W.
    destruct (take_company_words (firstn 5 (split title))) as [|w ws]; [discriminate|].
    intros [= <-]. now apply join_trimmed.
Qed.

End NameForm.

Lemma extract_company_name_trimmed_witness :
  extract_company_name "Acme  Corp  raises $10 million" = Some "Acme  Corp"
  /\ trimmed "Acme  Corp".
Proof.
  assert (H : extract_company_name "Acme  Corp  raises $10 million" = Some "Acme  Corp")
    by (vm_compute; reflexivity).
  split; [exact H|].
  exact (extract_company_name_trimmed "Acme  Corp  raises $10 million" "Acme  Corp" H).
Defined.

(* ===================================================================== *)
(** * Invariants of the ingestion passes *)
(* ===================================================================== *)

Section PassInvariants.

Variable e : env.

Lemma first_where_no_hash (h : string) (l : list Item) :
  first_where (fun i => String.eqb (item_hash i) h) l = None ->
  ~ In h (map item_hash l).
Proof.
  unfold first_where. intros N H. apply in_map_iff in H.
  destruct H as (i & <- & Hi).
  pose proof (find_none _ _ N i Hi) as F. cbn beta in F.
  now rewrite String.eqb_refl in F.
Qed.

Lemma NoDup_snoc {A} (l : list A) (x : A) :
  NoDup l -> ~ In x l -> NoDup (l ++ [x]).
Proof.
  induction 1 as [|y l Hy _ IH]; intros N; simpl.
  - repeat constructor. intros [].
  - constructor.
    + intros H. apply in_app_or in H. destruct H as [H|[<-|[]]].
      * contradiction.
      * apply N. now left.
    + apply IH. intros H. apply N. now right.
Qed.

Lemma first_where_fresh (n : nat) (l : list Item) :
  Forall (fun i => item_id i < n) l ->
  first_where (fun i => Nat.eqb (item_id i) n) l = None.
Proof.
  unfold first_where. induction 1 as [|i l Hi _ IH]; simpl; [reflexivity|].
  destruct (Nat.eqb_spec (item_id i) n); [lia|exact IH].
Qed.

(** One turn of the loop either leaves the state of the pass as it is,
    or adds one item with an unseen hash and the next id, and hands the
    id to [enqueue_analysis]. *)
Lemma ingest_candidate_step (source : Source) (c : candidate) (st : pass_state) :
  let db := w_db (ps_world st) in
  let st' := final_state (ingest_candidate e source c st) in
  st' = st
  \/ exists item,
       first_where (fun i => String.eqb (item_hash i) (item_hash item))
         (items db ++ s_items (ps_session st)) = None
       /\ item_id item = next_item_id db
       /\ s_items (ps_session st') = (s_items (ps_session st) ++ [item])%list
       /\ ps_world st'
          = snd (enqueue_analysis e (next_item_id db)
                   (mkWorld (set_next_item_id (S (next_item_id db)) db)
                            (w_queue (ps_world st)))).
Proof.
  cbv zeta. unfold ingest_candidate.
  destruct (String.eqb (cand_url c) ""); [now left|].
  destruct (create_item_hash _ _ _ _) as [x|hash_value]; [now left|].
  destruct (first_where _ _) as [found|] eqn:F; [now left|].
  right. cbv zeta.
  destruct (determine_item_type _ _ _); cbn [item_id];
    destruct (enqueue_analysis e _ _) as [j w2];
    cbn [final_state ps_session ps_world s_items snd];
    match goal with
    | |- exists item, _ /\ _ /\ (_ ++ [?i])%list = _ /\ _ => exists i
    end;
    (split; [exact F|split; [reflexivity|split; reflexivity]]).
Qed.

Lemma enqueue_analysis_items (id : nat) (w : world) :
  items (w_db (snd (enqueue_analysis e id w))) = items (w_db w)
  /\ next_item_id (w_db (snd (enqueue_analysis e id w))) = next_item_id (w_db w).
Proof.
  unfold enqueue_analysis. destruct (queue_up e); [now split|].
  pose proof (analyze_item_effect e id (w_db w)) as E.
  destruct (analyze_item e id (w_db w)) as [o db']. cbn [snd w_db].
  destruct E as [[-> _]|(a & s & _ & _ & _ & _ & ->)]; now split.
Qed.

Lemma enqueue_analysis_unseen (id : nat) (w : world) :
  Forall (fun i => item_id i < id) (items (w_db w)) ->
  mena_analysis (w_db (snd (enqueue_analysis e id w))) = mena_analysis (w_db w).
Proof.
  intros H. unfold enqueue_analysis. destruct (queue_up e); [reflexivity|].
  unfold analyze_item. now rewrite (first_where_fresh _ _ H).
Qed.

Lemma enqueue_analysis_queue (id : nat) (w : world) :
  queue_up e = true ->
  w_queue (snd (enqueue_analysis e id w)) = (w_queue w ++ [JobAnalyzeItem id])%list.
Proof. intros H. unfold enqueue_analysis. now rewrite H. Qed.

Lemma ingest_candidate_hashes (source : Source) (c : candidate) (st : pass_state) :
  NoDup (map item_hash (seen st)) ->
  NoDup (map item_hash (seen (final_state (ingest_candidate e source c st)))).
Proof.
  intros U. destruct (ingest_candidate_step source c st) as [->|(item & F & _ & S & W)];
    [exact U|].
  unfold seen. rewrite S, W.
  rewrite (proj1 (enqueue_analysis_items _ _)). cbn [w_db set_next_item_id items].
  rewrite app_assoc, map_app. cbn [map].
  apply NoDup_snoc; [exact U|]. now apply first_where_no_hash.
Qed.

Lemma ingest_candidate_analysis (source : Source) (c : candidate) (st : pass_state) :
  let st' := final_state (ingest_candidate e source c st) in
  Forall (fun i => item_id i < next_item_id (w_db (ps_world st))) (seen st) ->
  Forall (fun i => item_id i < next_item_id (w_db (ps_world st'))) (seen st')
  /\ mena_analysis (w_db (ps_world st')) = mena_analysis (w_db (ps_world st)).
Proof.
  cbv zeta. intros A.
  destruct (ingest_candidate_step source c st) as [->|(item & _ & Id & S & W)];
    [now split|].
  unfold seen in *. rewrite S, W. set (w1 := mkWorld _ _).
  destruct (enqueue_analysis_items (next_item_id (w_db (ps_world st))) w1) as [I N].
  split.
  - rewrite I, N. cbn [w1 w_db set_next_item_id items next_item_id].
    rewrite app_assoc. apply Forall_app. split.
    + eapply Forall_impl; [|exact A]. cbn beta. intros; lia.
    + apply Forall_cons; [rewrite Id; lia|apply Forall_nil].
  - rewrite enqueue_analysis_unseen; [reflexivity|].
    apply Forall_app in A. exact (proj1 A).
Qed.

Lemma ingest_candidate_queue (source : Source) (c : candidate) (st : pass_state) :
  let st' := final_state (ingest_candidate e source c st) in
  queue_up e = true ->
  exists ni,
    s_items (ps_session st') = (s_items (ps_session st) ++ ni)%list
    /\ w_queue (ps_world st') = (w_queue (ps_world st) ++ analysis_jobs ni)%list.
Proof.
  cbv zeta. intros Q.
  destruct (ingest_candidate_step source c st) as [->|(item & _ & Id & S & W)].
  - exists []. now rewrite !app_nil_r.
  - exists [item]. split; [exact S|].
    rewrite W, (enqueue_analysis_queue _ _ Q). cbn [w_queue analysis_jobs map].
    now rewrite Id.
Qed.

(** The whole loop. *)
Lemma ingest_candidates_invariants (source : Source) (cs : list candidate) :
  forall st,
    let st' := final_state (ingest_candidates e source cs st) in
    (NoDup (map item_hash (seen st)) -> NoDup (map item_hash (seen st')))
    /\ (Forall (fun i => item_id i < next_item_id (w_db (ps_world st))) (seen st) ->
        Forall (fun i => item_id i < next_item_id (w_db (ps_world st'))) (seen st')
        /\ mena_analysis (w_db (ps_world st')) = mena_analysis (w_db (ps_world st)))
    /\ (queue_up e = true ->
        exists ni,
          s_items (ps_session st') = (s_items (ps_session st) ++ ni)%list
          /\ w_queue (ps_world st') = (w_queue (ps_world st) ++ analysis_jobs ni)%list).
Proof.
  induction cs as [|c cs IH]; intros st; cbn [ingest_candidates].
  - cbn [final_state]. split; [auto|]. split; [auto|].
    intros _. exists []. now rewrite !app_nil_r.
  - pose proof (ingest_candidate_hashes source c st) as H1.
    pose proof (ingest_candidate_analysis source c st) as H2.
    pose proof (ingest_candidate_queue source c st) as H3.
    cbv zeta in H2, H3.
    destruct (ingest_candidate e source c st) as [[x st1]|st1]; cbn [final_state] in *.
    + auto.
    + destruct (IH st1) as (K1 & K2 & K3). cbv zeta.
      split; [auto|]. split.
      * intros A. destruct (H2 A) as [A1 M1]. destruct (K2 A1) as [A2 M2].
        split; [exact A2|congruence].
      * intros Q. destruct (H3 Q) as (ni & S1 & Q1). destruct (K3 Q) as (ni' & S2 & Q2).
        exists (ni ++ ni')%list. unfold analysis_jobs in *.
        rewrite S2, S1, Q2, Q1, map_app, !app_assoc. now split.
Qed.

(** A pass over one source, from the world it starts in to the world it
    leaves. *)
Lemma ingest_source_invariants (id : nat) (w : world) :
  let w' := snd (ingest_source e id w) in
  (unique_hashes (w_db w) -> unique_hashes (w_db w'))
  /\ (item_ids_fresh (w_db w) ->
      item_ids_fresh (w_db w') /\ mena_analysis (w_db w') = mena_analysis (w_db w))
  /\ (queue_up e = true ->
      exists ni,
        items (w_db w') = (items (w_db w) ++ ni)%list
        /\ w_queue w' = (w_queue w ++ analysis_jobs ni)%list).
Proof.
  assert (Skip : (unique_hashes (w_db w) -> unique_hashes (w_db w))
                 /\ (item_ids_fresh (w_db w) ->
                     item_ids_fresh (w_db w)
                     /\ mena_analysis (w_db w) = mena_analysis (w_db w))
                 /\ (queue_up e = true ->
                     exists ni,
                       items (w_db w) = (items (w_db w) ++ ni)%list
                       /\ w_queue w = (w_queue w ++ analysis_jobs ni)%list)).
  { split; [auto|]. split; [auto|]. intros _. exists []. now rewrite !app_nil_r. }
  cbv zeta. unfold ingest_source.
  destruct (first_where _ (sources (w_db w))) as [source|]; [|exact Skip].
  destruct (negb (source_enabled source)); [exact Skip|].
  set (st := mkPass _ empty_session 0).
  set (cs := if String.eqb _ "rss" then _ else _).
  destruct (ingest_candidates_invariants source cs st) as (K1 & K2 & K3).
  cbv zeta in K1, K2, K3.
  pose proof (ingest_candidates_effect e source cs st) as [(_ & I & _) _].
  pose proof (app_nil_r (items (w_db w))) as Nil.
  destruct (ingest_candidates e source cs st) as [[y s']|s'];
    cbn [final_state] in K1, K2, K3, I;
    cbn [snd w_db w_queue];
    unfold unique_hashes, item_ids_fresh, seen in *;
    cbn [st ps_world ps_session w_db w_queue set_ingest_runs commit items next_item_id
         mena_analysis s_items empty_session] in *;
    rewrite Nil in K1, K2.
  all: split; [exact K1|]; split; [exact K2|].
  all: intros Q; destruct (K3 Q) as (ni & S & Qu); exists ni; rewrite S, Qu, I.
  all: split; reflexivity.
Qed.

Lemma ingest_each_preserves (P : world -> Prop) :
  (forall id w, P w -> P (snd (ingest_source e id w))) ->
  forall ids results w, P w -> P (snd (ingest_each e ids results w)).
Proof.
  intros Step. induction ids as [|id ids IH]; intros results w H; cbn [ingest_each].
  - exact H.
  - specialize (Step id w H). destruct (ingest_source e id w) as [r w1].
    now apply IH.
Qed.

(** Ingestion keeps the hashes of the item table distinct:
    if no two items share a hash before a pass over one source, or over
    all enabled sources, none do after it, whatever the feeds hold and
    whether the pass succeeds or fails part-way. *)
Theorem ingest_keeps_unique_hashes (id : nat) (w : world) :
  unique_hashes (w_db w) ->
  unique_hashes (w_db (snd (ingest_source e id w)))
  /\ unique_hashes (w_db (snd (ingest_all_sources e w))).
Proof.
  intros U. split.
  - exact (proj1 (ingest_source_invariants id w) U).
  - unfold ingest_all_sources.
    apply (ingest_each_preserves (fun w' => unique_hashes (w_db w'))); [|exact U].
    intros i w' U'. exact (proj1 (ingest_source_invariants i w') U').
Qed.

(** With every item id below the next value of the item
    sequence, ingestion stores no analysis, even with the job queue
    down: the synchronous fallback of [enqueue_analysis] runs in a
    session of its own before the new item is committed, and finds no
    item. *)
Theorem ingest_adds_no_analysis (id : nat) (w : world) :
  item_ids_fresh (w_db w) ->
  mena_analysis (w_db (snd (ingest_source e id w))) = mena_analysis (w_db w)
  /\ mena_analysis (w_db (snd (ingest_all_sources e w))) = mena_analysis (w_db w).
Proof.
  intros A. split.
  - exact (proj2 (proj1 (proj2 (ingest_source_invariants id w)) A)).
  - unfold ingest_all_sources.
    refine (proj2 (ingest_each_preserves
                     (fun w' => item_ids_fresh (w_db w')
                                /\ mena_analysis (w_db w') = mena_analysis (w_db w))
                     _ _ _ w (conj A eq_refl))).
    intros i w' [A' M].
    destruct (proj1 (proj2 (ingest_source_invariants i w')) A') as [A2 M2].
    split; [exact A2|congruence].
Qed.


End PassInvariants.

Lemma ingest_keeps_unique_hashes_witness :
  unique_hashes (w_db sample_world)
  /\ unique_hashes (w_db (snd (ingest_source sample_env 1 sample_world)))
  /\ unique_hashes (w_db (snd (ingest_all_sources sample_env sample_world))).
Proof.
  assert (U : unique_hashes (w_db sample_world)) by apply NoDup_nil.
  split; [exact U|].
  exact (ingest_keeps_unique_hashes sample_env 1 sample_world U).
Defined.

Lemma ingest_adds_no_analysis_witness :
  item_ids_fresh (w_db sample_world)
  /\ List.length (items (w_db (snd (ingest_source sample_env_queue_down 1 sample_world)))) = 2
  /\ mena_analysis (w_db (snd (ingest_source sample_env_queue_down 1 sample_world)))
     = mena_analysis (w_db sample_world).
Proof.
  assert (A : item_ids_fresh (w_db sample_world)) by apply Forall_nil.
  split; [exact A|]. split; [vm_compute; reflexivity|].
  exact (proj1 (ingest_adds_no_analysis sample_env_queue_down 1 sample_world A)).
Defined.


(* ===================================================================== *)
(** * [create_item_hash]: the letter case of the URL *)
(* ===================================================================== *)

Section UrlCase.

Variable chk : string -> option string.




































End UrlCase.


(* ===================================================================== *)
(** * [create_item_hash]: a slash at the end of the URL *)
(* ===================================================================== *)

Section TrailingSlash.

Variable chk : string -> option string.

Lemma prefix_slashes_app (r x : string) :
  prefix "//" r = true -> prefix "//" (r ++ x) = true.
Proof.
  destruct r as [|a [|b r]]; cbn [prefix append]; try discriminate.
  - destruct (ascii_dec "/" a); discriminate.
  - destruct (ascii_dec "/" a); [|discriminate].
    destruct (ascii_dec "/" b); [|discriminate].
    intros _. apply prefix_empty.
Qed.

Lemma prefix_slashes_slash (r : string) :
  prefix "//" r = false -> r <> "/" -> prefix "//" (r ++ "/") = false.
Proof.
  destruct r as [|a [|b r]]; cbn [prefix append]; intros H N.
  - reflexivity.
  - destruct (ascii_dec "/" a) as [<-|]; [now elim N|reflexivity].
  - destruct (ascii_dec "/" a); [|reflexivity].
    destruct (ascii_dec "/" b); [|reflexivity].
    now rewrite prefix_empty in H.
Qed.

(** The authority step on a URL with one more slash: the slash joins
    the rest, or, after a rest that is one slash, opens an empty
    authority. *)
Lemma authority_slash (u : string) :
  authority chk (u ++ "/")
  = match authority chk u with
    | inl x => inl x
    | inr (sch, nl, rest) => inr (sch, nl, rest ++ "/")
    end
  \/ exists sch,
       authority chk u = inr (sch, EmptyString, "/")
       /\ authority chk (u ++ "/") = inr (sch, EmptyString, EmptyString).
Proof.
  unfold authority.
  rewrite (lstrip_by_stop UrlParse.c0_or_space u EmptyString "/" eq_refl),
          remove_chars_app.
  change (remove_chars UrlParse.unsafe_byte "/") with "/".
  rewrite (split_scheme_stop _ EmptyString "/" eq_refl eq_refl eq_refl).
  destruct (UrlParse.split_scheme _) as [sch r]. cbn [fst snd].
  destruct (prefix "//" r) eqn:P.
  - left. rewrite (prefix_slashes_app _ _ P).
    rewrite (slice_from_app _ _ 2 (prefix_slashes_length _ P)).
    rewrite (span_while_stop UrlParse.netloc_char _ EmptyString "/" eq_refl).
    destruct (UrlParse.span_while _ _) as [nl rest]. cbn [fst snd].
    destruct (_ || _)%bool; [reflexivity|].
    destruct (_ && _)%bool; [destruct (chk nl)|]; reflexivity.
  - destruct (string_dec r "/") as [->|N].
    + right. exists sch. split; reflexivity.
    + left. now rewrite (prefix_slashes_slash _ P N).
Qed.

Lemma plain_char_parts (s : string) :
  all_chars plain_char s = true ->
  all_chars (not_char "?") s = true
  /\ all_chars (not_char "#") s = true
  /\ all_chars (not_char ";") s = true.
Proof.
  intros H. repeat split; (eapply all_chars_weaken; [|exact H]);
    unfold plain_char; intros a Ha;
    apply andb_true_iff in Ha; destruct Ha as [Ha ?];
    apply andb_true_iff in Ha; destruct Ha; assumption.
Qed.

(** The hash of a URL whose rest after the authority has no query, no
    fragment and no parameters. *)
Lemma hash_of_plain_rest (sch nl rest : string) :
  all_chars plain_char rest = true ->
  (let '(url, fragment) := UrlParse.cut_at "#" rest in
   let '(url, query) := UrlParse.cut_at "?" url in
   let r := UrlParse.mkParseResult sch nl url EmptyString query fragment in
   if (existsb (String.eqb (UrlParse.scheme r)) UrlParse.uses_params
       && contains ";" (UrlParse.path r))%bool
   then fst (UrlParse.splitparams (UrlParse.path r))
   else UrlParse.path r) = rest.
Proof.
  intros H. destruct (plain_char_parts _ H) as (Q & F & S).
  rewrite (cut_at_none "#" _ F), (cut_at_none "?" _ Q).
  cbn [UrlParse.scheme UrlParse.path].
  now rewrite (contains_char_false ";" _ S), andb_false_r.
Qed.

Lemma strip_slash_end (s : string) :
  strip_chars "/" (lower (s ++ "/")) = strip_chars "/" (lower s).
Proof.
  rewrite lower_app. unfold strip_chars.
  exact (strip_by_padding (mem_char "/") EmptyString (lower s) "/" eq_refl eq_refl).
Qed.

(** One more slash at the end of a URL that has no query, fragment or
    parameters does not change the hash (or the exception). *)
Theorem create_item_hash_trailing_slash
  (url title : string) (published_at : option DateTime.datetime) :
  all_chars plain_char url = true ->
  create_item_hash chk (url ++ "/") title published_at
  = create_item_hash chk url title published_at.
Proof.
  intros H. rewrite !hash_of_split, !urlsplit_authority.
  assert (Norm : forall sch nl rest,
             all_chars plain_char rest = true ->
             (r <- (let '(url0, fragment) := UrlParse.cut_at "#" rest in
                    let '(url1, query) := UrlParse.cut_at "?" url0 in
                    ok (UrlParse.mkParseResult sch nl url1 EmptyString query fragment)) ;;
              ok (Sha256.hexdigest
                    (Sha256.sha256
                       (encode_utf8
                          (strip_chars "/"
                             (lower (UrlParse.netloc r
                                     ++ (if (existsb (String.eqb (UrlParse.scheme r))
                                               UrlParse.uses_params
                                             && contains ";" (UrlParse.path r))%bool
                                         then fst (UrlParse.splitparams (UrlParse.path r))
                                         else UrlParse.path r)))
                           ++ "|" ++ strip (lower title) ++ "|"
                           ++ match published_at with
                              | Some d => DateTime.isoformat d
                              | None => EmptyString
                              end)))))
             = ok (Sha256.hexdigest
                     (Sha256.sha256
                        (encode_utf8
                           (strip_chars "/" (lower (nl ++ rest))
                            ++ "|" ++ strip (lower title) ++ "|"
                            ++ match published_at with
                               | Some d => DateTime.isoformat d
                               | None => EmptyString
                               end))))).
  { intros sch nl rest R. pose proof (hash_of_plain_rest sch nl rest R) as E.
    destruct (plain_char_parts _ R) as (Q & F & _).
    rewrite (cut_at_none "#" _ F), (cut_at_none "?" _ Q) in *.
    cbn [bind ok UrlParse.netloc] in *. now rewrite E. }
  destruct (authority_slash url) as [E|(sch & E1 & E2)].
  - rewrite E. destruct (authority chk url) as [x|[[sch nl] rest]] eqn:A; [reflexivity|].
    pose proof (authority_chars chk _ _ _ _ _ H A) as R.
    cbn [bind].
    rewrite (Norm sch nl rest R).
    rewrite (Norm sch nl (rest ++ "/")) by (now rewrite all_chars_app, R).
    now rewrite <- (append_assoc' nl rest "/"), strip_slash_end.
  - rewrite E1, E2. cbn [bind].
    rewrite (Norm sch EmptyString "/" eq_refl), (Norm sch EmptyString EmptyString eq_refl).
    reflexivity.
Qed.

End TrailingSlash.

Lemma create_item_hash_trailing_slash_witness :
  all_chars plain_char "https://example.com/article" = true
  /\ create_item_hash (fun _ => None) ("https://example.com/article" ++ "/") "T" None
     = create_item_hash (fun _ => None) "https://example.com/article" "T" None.
Proof.
  assert (H : all_chars plain_char "https://example.com/article" = true)
    by (vm_compute; reflexivity).
  split; [exact H|].
  exact (create_item_hash_trailing_slash (fun _ => None)
           "https://example.com/article" "T" None H).
Defined.

(* ===================================================================== *)
(** * [parse_rss_feed]: no tag is left in a summary *)
(* ===================================================================== *)

Section CleanSummary.

Variable e : env.

Lemma find_gt_cons (a : ascii) (s : string) :
  find_gt (String a s)
  = if Ascii.eqb a ">" then Some 0 else option_map S (find_gt s).
Proof. reflexivity. Qed.

Lemma strip_tags_go_no_gt (n : nat) :
  forall s, find_gt s = None -> find_gt (strip_tags_go n s) = None.
Proof.
  induction n as [|n IH]; intros s H; [exact H|].
  destruct s as [|a s]; [reflexivity|].
  rewrite find_gt_cons in H.
  destruct (Ascii.eqb a ">") eqn:G; [discriminate|].
  destruct (find_gt s) as [k|] eqn:F; [discriminate|].
  cbn [strip_tags_go]. rewrite F.
  destruct (Ascii.eqb a "<"); rewrite find_gt_cons, G, (IH s F); reflexivity.
Qed.

Lemma strip_tags_go_head_gt (n : nat) (s : string) :
  find_gt s = Some 0 -> find_gt (strip_tags_go n s) = Some 0.
Proof.
  destruct n as [|n]; intros H; [exact H|].
  destruct s as [|a s]; [discriminate|].
  rewrite find_gt_cons in H.
  destruct (Ascii.eqb a ">") eqn:G.
  - apply Ascii.eqb_eq in G. subst a. cbn [strip_tags_go].
    change (Ascii.eqb ">" "<") with false. cbv iota. reflexivity.
  - destruct (find_gt s); discriminate.
Qed.

Lemma strip_tags_go_no_tag (n : nat) :
  forall s, String.length s <= n -> has_tag (strip_tags_go n s) = false.
Proof.
  induction n as [|n IH]; intros s L.
  - destruct s; [reflexivity|simpl in L; lia].
  - destruct s as [|a s]; [reflexivity|]. cbn [String.length] in L.
    assert (Ls : String.length s <= n) by lia.
    cbn [strip_tags_go].
    destruct (Ascii.eqb a "<") eqn:A.
    + destruct (find_gt s) as [[|k]|] eqn:F.
      * cbn [has_tag tag_at]. rewrite A, (strip_tags_go_head_gt n s F), (IH s Ls).
        reflexivity.
      * apply IH. pose proof (substring_length_le s (S (S k)) (String.length s)). lia.
      * cbn [has_tag tag_at]. rewrite A, (strip_tags_go_no_gt n s F), (IH s Ls).
        reflexivity.
    + cbn [has_tag tag_at]. rewrite A, (IH s Ls). reflexivity.
Qed.

(** [re.sub(r'<[^>]+>', '', s)] leaves no tag. *)
Lemma strip_tags_no_tag (s : string) : has_tag (strip_tags s) = false.
Proof. apply strip_tags_go_no_tag, le_n. Qed.

Lemma find_gt_prefix (s : string) :
  forall m j, find_gt (substring 0 m s) = Some j -> find_gt s = Some j.
Proof.
  induction s as [|a s IH]; intros [|m] j; simpl; try discriminate.
  destruct (Ascii.eqb a ">"); [auto|].
  destruct (find_gt (substring 0 m s)) as [i|] eqn:F; [|discriminate].
  intros [= <-]. now rewrite (IH m i F).
Qed.

Lemma has_tag_prefix (s : string) :
  forall m, has_tag s = false -> has_tag (substring 0 m s) = false.
Proof.
  induction s as [|a s IH]; intros [|m] H; try reflexivity.
  cbn [has_tag] in H. apply orb_false_iff in H. destruct H as [T H].
  change (substring 0 (S m) (String a s)) with (String a (substring 0 m s)).
  cbn [has_tag]. rewrite (IH m H), orb_false_r.
  cbn [tag_at] in *. destruct (Ascii.eqb a "<"); [|reflexivity].
  destruct (find_gt (substring 0 m s)) as [[|k]|] eqn:F; try reflexivity.
  now rewrite (find_gt_prefix s m (S k) F) in T.
Qed.

(** Whatever the feed holds, no summary that [parse_rss_feed] returns
    has a tag left in it: nowhere in it stands [<], one or more
    characters other than [>], and [>]. *)
Theorem parse_rss_feed_no_tag (url : string) :
  Forall (fun c => has_tag (cand_summary c) = false) (parse_rss_feed e url).
Proof.
  unfold parse_rss_feed. destruct (feed_entries e url) as [x|entries]; [constructor|].
  apply Forall_forall. intros c Hc. apply in_map_iff in Hc.
  destruct Hc as (en & <- & _). cbn [candidate_of_entry cand_summary].
  unfold slice_to. apply has_tag_prefix, strip_tags_no_tag.
Qed.

End CleanSummary.

(* ===================================================================== *)
(** * [ingest_source]: the detail rows of the new items *)
(* ===================================================================== *)

Section DetailRows.

Variable e : env.

Lemma details_match_snoc_funding ni nf nc (i : Item) (f : FundingDetails) :
  details_match ni nf nc -> item_type i = FUNDING -> fd_item_id f = item_id i ->
  details_match (ni ++ [i]) (nf ++ [f]) nc.
Proof.
  unfold details_match, is_funding. intros (A & B & C) T F.
  rewrite !filter_app, !map_app. cbn [filter]. rewrite T. cbn [negb map].
  rewrite A, B, F, app_nil_r. auto.
Qed.

Lemma details_match_snoc_company ni nf nc (i : Item) (c : CompanyDetails) :
  details_match ni nf nc -> item_type i = COMPANY -> cd_item_id c = item_id i ->
  one_liner_ok c ->
  details_match (ni ++ [i]) nf (nc ++ [c]).
Proof.
  unfold details_match, is_funding. intros (A & B & C) T F O.
  rewrite !filter_app, !map_app. cbn [filter]. rewrite T. cbn [negb map].
  rewrite A, B, F, app_nil_r. repeat split; auto.
  apply Forall_app. auto.
Qed.

Lemma one_liner_of_summary (id : nat) (summary : string) :
  one_liner_ok {| cd_item_id := id;
                  cd_one_liner := if String.eqb summary "" then None
                                  else Some (slice_to summary 200) |}.
Proof.
  unfold one_liner_ok. cbn [cd_one_liner].
  destruct summary as [|a s]; [exact I|]. cbn [String.eqb]. split.
  - discriminate.
  - apply substring_length_le.
Qed.

Lemma ingest_candidate_details (source : Source) (c : candidate) (st : pass_state) :
  let s := ps_session st in
  let s' := ps_session (final_state (ingest_candidate e source c st)) in
  details_match (s_items s) (s_funding s) (s_company s) ->
  details_match (s_items s') (s_funding s') (s_company s').
Proof.
  cbv zeta. intros D. unfold ingest_candidate.
  destruct (String.eqb (cand_url c) ""); [exact D|].
  destruct (create_item_hash _ _ _ _) as [x|hash_value]; [exact D|].
  destruct (first_where _ _) as [found|]; [exact D|].
  cbv zeta.
  destruct (determine_item_type _ _ _) eqn:T;
    destruct (enqueue_analysis e _ _) as [j w2];
    cbn [final_state ps_session s_items s_funding s_company].
  - apply details_match_snoc_funding; auto.
  - apply details_match_snoc_company; auto. apply one_liner_of_summary.
Qed.

Lemma ingest_candidates_details (source : Source) (cs : list candidate) :
  forall st,
    let s := ps_session st in
    let s' := ps_session (final_state (ingest_candidates e source cs st)) in
    details_match (s_items s) (s_funding s) (s_company s) ->
    details_match (s_items s') (s_funding s') (s_company s').
Proof.
  induction cs as [|c cs IH]; intros st; cbn [ingest_candidates]; [auto|].
  pose proof (ingest_candidate_details source c st) as H. cbv zeta in *.
  destruct (ingest_candidate e source c st) as [[x st1]|st1]; cbn [final_state] in *.
  - exact H.
  - intros D. apply IH, H, D.
Qed.

(** The rows a pass over a source adds to the three tables belong
    together: every new funding item has its funding row and every
    other new item its company row, under the item's id and in the
    order of the items, and there is no other new detail row. *)
Theorem ingest_source_details (id : nat) (w : world) :
  exists ni nf nc,
    items (w_db (snd (ingest_source e id w))) = (items (w_db w) ++ ni)%list
    /\ funding_details (w_db (snd (ingest_source e id w)))
       = (funding_details (w_db w) ++ nf)%list
    /\ company_details (w_db (snd (ingest_source e id w)))
       = (company_details (w_db w) ++ nc)%list
    /\ details_match ni nf nc.
Proof.
  assert (Nil : details_match [] [] []) by (repeat split; constructor).
  assert (Skip : exists ni nf nc,
             items (w_db w) = (items (w_db w) ++ ni)%list
             /\ funding_details (w_db w) = (funding_details (w_db w) ++ nf)%list
             /\ company_details (w_db w) = (company_details (w_db w) ++ nc)%list
             /\ details_match ni nf nc).
  { exists [], [], []. now rewrite !app_nil_r. }
  unfold ingest_source.
  destruct (first_where _ (sources (w_db w))) as [source|]; [|exact Skip].
  destruct (negb (source_enabled source)); [exact Skip|].
  set (st := mkPass _ empty_session 0).
  set (cs := if String.eqb _ "rss" then _ else _).
  pose proof (ingest_candidates_details source cs st Nil) as D.
  pose proof (ingest_candidates_effect e source cs st) as [(_ & I & F & C & _) _].
  destruct (ingest_candidates e source cs st) as [[y s']|s'];
    cbn [final_state] in D, I, F, C;
    cbn [snd w_db st ps_world set_ingest_runs commit items funding_details
         company_details] in *;
    exists (s_items (ps_session s')), (s_funding (ps_session s')),
           (s_company (ps_session s'));
    rewrite I, F, C; auto.
Qed.

End DetailRows.
